(** * ifmgrd: the per-interface state machine, the interface manager, the
  session registry and the dispatcher's read operations.

  A shallow embedding of [intf_state_machine.go], the interface manager,
  the session map and [dispatcher.go], with the properties the design
  document states about them. *)

From Stdlib Require Import Ascii String.
From stdpp Require Import gmap strings list fin_maps pretty.

Open Scope string_scope.
Open Scope list_scope.

(** ** Configuration trees ([github.com/danos/config/data])

  The data library is an external collaborator.  A node has a name and
  named children; a [*data.Node] is a possibly nil pointer.  Two pointers
  are equal when they hold the same address, whatever the content. *)
Module data.

#[warnings="-register-all"] Inductive Node : Type :=
  mkNode (name : string) (children : list Node).

Definition Name (n : Node) : string := let 'mkNode s _ := n in s.
Definition Children (n : Node) : list Node := let 'mkNode _ cs := n in cs.

(** [n.Child(name)]: the child called [name], nil when there is none. *)
Definition Child (name : string) (n : Node) : option Node :=
  List.find (fun c => bool_decide (Name c = name)) (Children n).

Definition ChildNames (n : Node) : list string := map Name (Children n).

(** A non-nil pointer: the address of the allocation and what it holds. *)
Record NodeRef : Type := mkRef { addr : positive; target : Node }.

Definition NodePtr : Type := option NodeRef.

Definition nil : NodePtr := None.

(** Go's [==] on [*data.Node]. *)
Definition ptr_eqb (p q : NodePtr) : bool :=
  match p, q with
  | None, None => true
  | Some a, Some b => bool_decide (addr a = addr b)
  | _, _ => false
  end.

(** The receiver-nil-safe accessors used on the full tree. *)
Definition deref (p : NodePtr) : option Node := target <$> p.

End data.

Import data.

(** ** The interface state machine ([intf_state_machine.go]) *)
Module Machine.

(** [type State uint32], named as [State.String] prints them. *)
Inductive State : Type :=
  Unplugged | Plugged | Applying | Unapplying | Shuttingdown | Shutdown.

(** [type messageType uint32], named as [messageType.String] prints them;
    [isShutdown] prints as "Shutdown" and keeps its constant's name. *)
Inductive messageType : Type :=
  Apply | Unapply | Reset | Plug | Unplug | IsShutdown | Kill | Done.

#[global] Instance State_eq_dec : EqDecision State.
Proof. solve_decision. Defined.
#[global] Instance messageType_eq_dec : EqDecision messageType.
Proof. solve_decision. Defined.

Record message : Type := mkMessage { typ : messageType; mdata : NodePtr }.

(** The struct [IntfMachine].  The two atomic nodes are the pointers they
    hold; [done] is true once the channel [done] is closed; the unbuffered
    channel [messages] is the rendezvous modelled by [send] below; the
    transition table is the function [transitionTable]. *)
Record IntfMachine : Type := mkMachine {
  ifname : string;
  curState : State;
  candidate : NodePtr;
  running : NodePtr;
  plugged : bool;
  killReq : bool;
  done : bool
}.

(** The goroutines started by [applyconfig] and [unapplyconfig].  The
    first captures the candidate and running pointers loaded before the
    [go] statement; the second reads [mach.running] when it runs. *)
Inductive Task : Type :=
| applyTask (cand run : NodePtr)
| unapplyTask.

(** A live goroutine: [sending] is false while it is inside [applyIntf]
    and true once it has stored [running] and is blocked in
    [mach.send(done)]. *)
Record Goroutine : Type := mkGoroutine { task : Task; sending : bool }.

(** [vci.EmitNotification] calls. *)
Inductive Notification : Type :=
| InterfaceState (name state : string)
| ConfigurationUpdated (name : string).

(** What one machine owns: its struct, the goroutines it has started that
    have not returned yet, and the notifications emitted so far. *)
Record World : Type := mkWorld {
  mach : IntfMachine;
  goroutines : list Goroutine;
  emitted : list Notification
}.

(** Code that runs on the machine's task mutates the world and returns a
    value. *)
Definition M (A : Type) : Type := World -> A * World.

#[global] Instance M_ret : MRet M := fun A a w => (a, w).
#[global] Instance M_bind : MBind M :=
  fun A B f m w => let '(a, w') := m w in f a w'.

Definition gets {A} (f : IntfMachine -> A) : M A := fun w => (f (mach w), w).
Definition modify (f : IntfMachine -> IntfMachine) : M unit :=
  fun w => (tt, mkWorld (f (mach w)) (goroutines w) (emitted w)).

Definition candidate_Store (c : NodePtr) : M unit :=
  modify (fun m => mkMachine (ifname m) (curState m) c (running m)
                             (plugged m) (killReq m) (done m)).
Definition running_Store (r : NodePtr) : M unit :=
  modify (fun m => mkMachine (ifname m) (curState m) (candidate m) r
                             (plugged m) (killReq m) (done m)).
Definition set_plugged (b : bool) : M unit :=
  modify (fun m => mkMachine (ifname m) (curState m) (candidate m) (running m)
                             b (killReq m) (done m)).
Definition set_killReq (b : bool) : M unit :=
  modify (fun m => mkMachine (ifname m) (curState m) (candidate m) (running m)
                             (plugged m) b (done m)).
Definition set_curState (s : State) : M unit :=
  modify (fun m => mkMachine (ifname m) s (candidate m) (running m)
                             (plugged m) (killReq m) (done m)).
Definition close_done : M unit :=
  modify (fun m => mkMachine (ifname m) (curState m) (candidate m) (running m)
                             (plugged m) (killReq m) true).

(** [go func() { ... }()] *)
Definition go (t : Task) : M unit :=
  fun w => (tt, mkWorld (mach w) (goroutines w ++ [mkGoroutine t false])
                        (emitted w)).

Definition EmitNotification (n : Notification) : M unit :=
  fun w => (tt, mkWorld (mach w) (goroutines w) (emitted w ++ [n])).

Definition notifyConfigUpdated : M unit :=
  name ← gets ifname; EmitNotification (ConfigurationUpdated name).

Definition notifyInterfaceState (state : string) : M unit :=
  name ← gets ifname; EmitNotification (InterfaceState name state).

Definition TransFn : Type := NodePtr -> M State.

Definition applyUnplugged : TransFn := fun cfg =>
  candidate_Store cfg;; mret Unplugged.

Definition resetUnplugged : TransFn := fun cfg =>
  candidate_Store cfg;; mret Unplugged.

Definition applyconfig (cand : NodePtr) : M State :=
  candidate_Store cand;;
  cand' ← gets candidate;
  run ← gets running;
  go (applyTask cand' run);;
  mret Applying.

Definition unapplyconfig (newState : State) : M State :=
  go unapplyTask;;
  mret newState.

Definition apply : TransFn := fun cfg => applyconfig cfg.
Definition unapply : TransFn := fun cfg => applyconfig cfg.
Definition reset : TransFn := fun cfg => applyconfig cfg.

Definition plug : TransFn := fun _ =>
  notifyInterfaceState "plugged";;
  set_plugged true;;
  c ← gets candidate;
  applyconfig c.

Definition plugUnapplying : TransFn := fun _ =>
  notifyInterfaceState "plugged";;
  set_plugged true;;
  mret Unapplying.

Definition unplug : TransFn := fun _ =>
  notifyInterfaceState "unplugged";;
  set_plugged false;;
  unapplyconfig Unapplying.

Definition unplugApplying : TransFn := fun _ =>
  notifyInterfaceState "unplugged";;
  set_plugged false;;
  mret Applying.

Definition unplugUnapplying : TransFn := fun _ =>
  notifyInterfaceState "unplugged";;
  set_plugged false;;
  mret Unapplying.

Definition resetApplying : TransFn := fun cfg =>
  candidate_Store cfg;; mret Applying.

Definition resetUnapplying : TransFn := fun cfg =>
  candidate_Store cfg;; mret Unapplying.

Definition swapApplying : TransFn := fun cfg =>
  candidate_Store cfg;; mret Applying.

Definition swapUnapplying : TransFn := fun cfg =>
  candidate_Store cfg;; mret Unapplying.

Definition doneApplying : TransFn := fun _ =>
  k ← gets killReq;
  if k : bool then unapplyconfig Shuttingdown else
  p ← gets plugged;
  if negb (p : bool) then unapplyconfig Unapplying else
  cand ← gets candidate;
  run ← gets running;
  if negb (ptr_eqb run cand) then applyconfig cand else
  mret Plugged.

Definition doneUnapplying : TransFn := fun _ =>
  k ← gets killReq;
  if k : bool then unapplyconfig Shuttingdown else
  p ← gets plugged;
  if negb (p : bool) then mret Unplugged else
  c ← gets candidate;
  applyconfig c.

Definition kill : TransFn := fun _ => mret Shutdown.

Definition killPlugged : TransFn := fun _ => unapplyconfig Shuttingdown.

Definition killApplying : TransFn := fun _ =>
  set_killReq true;; mret Applying.

Definition killUnapplying : TransFn := fun _ =>
  set_killReq true;; mret Unapplying.

(** The map literal of [NewIntfMachine]; [None] is Go's nil function
    value for an absent key. *)
Definition transitionTable (s : State) (t : messageType) : option TransFn :=
  match s, t with
  | Unplugged, Apply => Some applyUnplugged
  | Unplugged, Reset => Some resetUnplugged
  | Unplugged, Plug => Some plug
  | Unplugged, Kill => Some kill
  | Plugged, Apply => Some apply
  | Plugged, Reset => Some reset
  | Plugged, Unplug => Some unplug
  | Plugged, Kill => Some killPlugged
  | Applying, Apply => Some swapApplying
  | Applying, Reset => Some resetApplying
  | Applying, Unplug => Some unplugApplying
  | Applying, Done => Some doneApplying
  | Applying, Kill => Some killApplying
  | Unapplying, Apply => Some swapUnapplying
  | Unapplying, Reset => Some resetUnapplying
  | Unapplying, Plug => Some plugUnapplying
  | Unapplying, Unplug => Some unplugUnapplying
  | Unapplying, Done => Some doneUnapplying
  | Unapplying, Kill => Some killUnapplying
  | Shuttingdown, Done => Some kill
  | _, _ => None
  end.

(** One iteration of the loop of [run], from the receive to the next
    receive (or to [close(mach.done)] when the loop breaks). *)
Definition run_iter (msg : message) : M unit :=
  state ← gets curState;
  match transitionTable state (typ msg) with
  | None => mret tt
  | Some trans =>
      state' ← trans (mdata msg);
      set_curState state';;
      if decide (state' = Shutdown) then close_done else mret tt
  end.

(** [mach.send]: the select succeeds on [messages] while the loop of
    [run] is alive, and on the closed [done] afterwards. *)
Definition send (msg : message) : M bool :=
  closed ← gets done;
  if closed : bool then mret false else run_iter msg;; mret true.

Definition NewIntfMachine (name : string) : World :=
  mkWorld (mkMachine name Unplugged nil nil false false false) [] [].

(** [findCommitRoot]: the first [interfaces/<type>/<name>] of the tree, under
    a freshly built [root/interfaces/<type>] path; nil when the tree is nil
    or does not hold the interface.  The result is a new allocation, so only
    its content and whether it is nil are kept. *)
Fixpoint findInTypes (name : string) (types : list Node) : option Node :=
  match types with
  | [] => None
  | intfType :: rest =>
      match List.find (fun intf => bool_decide (Name intf = name))
                      (Children intfType) with
      | Some intf =>
          Some (mkNode "root"
                  [mkNode "interfaces" [mkNode (Name intfType) [intf]]])
      | None => findInTypes name rest
      end
  end.

Definition findCommitRoot (name : string) (tree : NodePtr) : option Node :=
  match deref tree ≫= Child "interfaces" with
  | Some intfTree => findInTypes name (Children intfTree)
  | None => None
  end.

(** [applyIntf]: no commit when both commit roots are nil (two roots built by
    [findCommitRoot] are never the same allocation); otherwise the answer of
    [commit.Changed], given here as [commitChanged], decides whether the
    commit is handed to the worker pool. *)
Definition applyIntf (name : string) (cand run : NodePtr)
    (commitChanged : bool) : bool :=
  match findCommitRoot name cand, findCommitRoot name run with
  | None, None => false
  | _, _ => commitChanged
  end.

(** *** The machine and its goroutines as a transition system *)

Inductive Label : Type :=
| Deliver (msg : message)
    (** a caller of [Apply], [Reset], [Plug], [Unplug], [Kill], [IsShutdown] *)
| Complete (i : nat) (commitChanged : bool)
    (** goroutine [i] returns from [applyIntf], stores [running], notifies *)
| SendDone (i : nat).
    (** the [mach.send(done)] of goroutine [i] returns and it exits *)

Definition set_goroutines (gs : list Goroutine) : M unit :=
  fun w => (tt, mkWorld (mach w) gs (emitted w)).

(** The body of the goroutine up to its [mach.send]. *)
Definition complete (t : Task) (commitChanged : bool) : M unit :=
  name ← gets ifname;
  match t with
  | applyTask cand run =>
      let changes := applyIntf name cand run commitChanged in
      running_Store cand;;
      if changes then notifyConfigUpdated else mret tt
  | unapplyTask =>
      run ← gets running;
      let changes := applyIntf name nil run commitChanged in
      running_Store nil;;
      if changes then notifyConfigUpdated else mret tt
  end.

Definition external (t : messageType) : bool :=
  match t with Done => false | _ => true end.

Definition step (l : Label) (w : World) : option World :=
  match l with
  | Deliver msg =>
      if external (typ msg) then Some (send msg w).2 else None
  | Complete i commitChanged =>
      match goroutines w !! i with
      | Some (mkGoroutine t false) =>
          Some ((complete t commitChanged;;
                 gs ← (fun w => (goroutines w, w));
                 set_goroutines (<[i := mkGoroutine t true]> gs)) w).2
      | _ => None
      end
  | SendDone i =>
      match goroutines w !! i with
      | Some (mkGoroutine t true) =>
          Some ((set_goroutines (delete i (goroutines w));;
                 send (mkMessage Done nil)) w).2
      | _ => None
      end
  end.

Inductive reachable : World -> Prop :=
| reachable_new name : reachable (NewIntfMachine name)
| reachable_step l w w' : reachable w -> step l w = Some w' -> reachable w'.


(** Goroutines that have not finished their commit yet. *)
Definition committing (w : World) : nat :=
  length (filter (fun g => sending g = false) (goroutines w)).

Definition with_machine (f : IntfMachine -> IntfMachine) (w : World) : World :=
  mkWorld (f (mach w)) (goroutines w) (emitted w).

Definition with_state (s : State) (m : IntfMachine) : IntfMachine :=
  mkMachine (ifname m) s (candidate m) (running m) (plugged m) (killReq m)
            (done m).

Definition with_candidate (c : NodePtr) (m : IntfMachine) : IntfMachine :=
  mkMachine (ifname m) (curState m) c (running m) (plugged m) (killReq m)
            (done m).

(** The world after a transition that started one goroutine and moved to
    state [s]. *)
Definition started (t : Task) (s : State) (w : World) : World :=
  mkWorld (with_state s (mach w)) (goroutines w ++ [mkGoroutine t false])
          (emitted w).


(** How many goroutines a machine in a given state has started and not yet
    heard [Done] from. *)
Definition inflight (s : State) : nat :=
  match s with
  | Applying | Unapplying | Shuttingdown => 1
  | Unplugged | Plugged | Shutdown => 0
  end.

(** The steps that store [running], and those that may store a new
    [candidate]. *)
Definition completes (l : Label) : bool :=
  match l with Complete _ _ => true | _ => false end.

Definition stages (l : Label) : bool :=
  match l with
  | Deliver (mkMessage Apply _) | Deliver (mkMessage Reset _) => true
  | _ => false
  end.

(** What holds of every world a machine can be in: as many goroutines as the
    state accounts for, and [done] closed exactly in [Shutdown]. *)
Definition invariant (w : World) : Prop :=
  length (goroutines w) = inflight (curState (mach w)) /\
  (done (mach w) = true <-> curState (mach w) = Shutdown).

End Machine.

(** ** Management errors ([github.com/danos/mgmterror])

    Only what the code sets or what callers look at: the kind of the error,
    the message, the path and, for an unknown element, its name. *)
Module mgmterror.

Inductive Kind : Type := DataMissing | OperationFailed | UnknownElement.

Record MgmtError : Type := mkError {
  kind : Kind;
  Message : string;
  Path : list string;
  Element : string
}.

Definition NewDataMissingError : MgmtError :=
  mkError DataMissing "" [] "".
Definition NewOperationFailedApplicationError : MgmtError :=
  mkError OperationFailed "" [] "".
Definition NewUnknownElementApplicationError (name : string) : MgmtError :=
  mkError UnknownElement "" [] name.

Definition set_Message (msg : string) (e : MgmtError) : MgmtError :=
  mkError (kind e) msg (Path e) (Element e).
Definition set_Path (p : list string) (e : MgmtError) : MgmtError :=
  mkError (kind e) (Message e) p (Element e).

End mgmterror.

Import mgmterror.

(** ** The session registry *)
Module Sessions.

(** The compiled schema tree is opaque; it is told apart by a number. *)
Definition SchemaNode : Type := nat.

Record Session : Type := mkSession {
  candidate : option Node;
  running : option Node;
  schema : SchemaNode
}.

(** The map of [Sessions]; the lock is not modelled, each method runs
    atomically. *)
Abbreviation Sessions := (gmap string Session).

Definition NewSessionMap : Sessions := ∅.

Definition New (sid : string) (candidate running : option Node)
    (schema : SchemaNode) (s : Sessions) : (Session + MgmtError) * Sessions :=
  match s !! sid with
  | Some _ =>
      let err := NewOperationFailedApplicationError in
      (inr (set_Message "session exists" err), s)
  | None =>
      let sess := mkSession candidate running schema in
      (inl sess, <[sid := sess]> s)
  end.

Definition Delete (sid : string) (s : Sessions) : Sessions :=
  match s !! sid with
  | None => s
  | Some _ => delete sid s
  end.

Definition Get (sid : string) (s : Sessions) : option Session := s !! sid.

End Sessions.

(** ** The interface manager and the process-wide instances *)
Module Manager.

Import Machine.

(** [IntfManager]: the last full tree and the managed machines.  A machine
    pointer is the world of that machine. *)
Record IntfManager : Type := mkManager {
  config : NodePtr;
  interfaces : gmap string World
}.

Definition NewIntfManager : IntfManager := mkManager nil ∅.

(** The globals of [ifmgrd.go]. *)
Record Core : Type := mkCore {
  intfmgr : IntfManager;
  sessionmgr : Sessions.Sessions;
  SchemaTree : Sessions.SchemaNode
}.

Definition listConfigInterfaces (config : NodePtr) : list string :=
  match deref config ≫= Child "interfaces" with
  | Some intfTree => concat (map ChildNames (Children intfTree))
  | None => []
  end.

(** A message handed to the machine registered under a name. *)
Definition Delivery : Type := string * message.

(** [intf.Apply(cfg)], [intf.Plug()], ...: the machine found under [name]
    takes the message through [send]. *)
Definition deliver (name : string) (msg : message)
    (ifs : gmap string World) : gmap string World :=
  alter (fun w => (send msg w).2) name ifs.

(** [Register]; [present] tells whether [net.InterfaceByName] finds the
    interface.  Returns the manager and the messages it delivered. *)
Definition Register (present : bool) (intfName : string)
    (mgr : IntfManager) : IntfManager * list Delivery :=
  match interfaces mgr !! intfName with
  | Some _ => (mgr, [])
  | None =>
      let intf := NewIntfMachine intfName in
      let ifs := <[intfName := intf]> (interfaces mgr) in
      let m1 := mkMessage Apply (config mgr) in
      let ifs := deliver intfName m1 ifs in
      if present then
        let m2 := mkMessage Plug nil in
        (mkManager (config mgr) (deliver intfName m2 ifs),
         [(intfName, m1); (intfName, m2)])
      else (mkManager (config mgr) ifs, [(intfName, m1)])
  end.

(** [Unregister]: the machine leaves the map and is then told to stop; it
    is returned since nothing else refers to it any more. *)
Definition Unregister (intfName : string) (mgr : IntfManager)
    : IntfManager * option World * list Delivery :=
  match interfaces mgr !! intfName with
  | None => (mgr, None, [])
  | Some intf =>
      let m := mkMessage Kill nil in
      (mkManager (config mgr) (delete intfName (interfaces mgr)),
       Some (send m intf).2, [(intfName, m)])
  end.

(** The state of the first loop of [Apply]: the machines, the set
    [configInterfaces] and the deliveries made. *)
Definition apply_loop (config : NodePtr)
    (acc : gmap string World * gset string * list Delivery) (name : string)
    : gmap string World * gset string * list Delivery :=
  let '(ifs, configInterfaces, sent) := acc in
  match ifs !! name with
  | None => acc
  | Some _ =>
      let m := mkMessage Apply config in
      (deliver name m ifs, {[name]} ∪ configInterfaces, sent ++ [(name, m)])
  end.

(** The second loop; Go ranges over the map in an unspecified order, here
    the order of [map_to_list]. *)
Definition reset_loop (config : NodePtr) (configInterfaces : gset string)
    (acc : gmap string World * list Delivery) (entry : string * World)
    : gmap string World * list Delivery :=
  let '(ifs, sent) := acc in
  if decide (entry.1 ∈ configInterfaces) then acc
  else
    let m := mkMessage Reset config in
    (deliver entry.1 m ifs, sent ++ [(entry.1, m)]).

Definition Apply (config : NodePtr) (mgr : IntfManager)
    : IntfManager * list Delivery :=
  let '(ifs, configInterfaces, sent) :=
    foldl (apply_loop config) (interfaces mgr, ∅, [])
          (listConfigInterfaces config) in
  let '(ifs', sent') :=
    foldl (reset_loop config configInterfaces) (ifs, sent)
          (map_to_list ifs) in
  (mkManager config ifs', sent').

Definition Plug (intfName : string) (mgr : IntfManager)
    : IntfManager * list Delivery :=
  match interfaces mgr !! intfName with
  | None => (mgr, [])
  | Some _ =>
      let m := mkMessage Machine.Plug nil in
      (mkManager (config mgr) (deliver intfName m (interfaces mgr)),
       [(intfName, m)])
  end.

Definition Unplug (intfName : string) (mgr : IntfManager)
    : IntfManager * list Delivery :=
  match interfaces mgr !! intfName with
  | None => (mgr, [])
  | Some _ =>
      let m := mkMessage Machine.Unplug nil in
      (mkManager (config mgr) (deliver intfName m (interfaces mgr)),
       [(intfName, m)])
  end.



(** The deliveries addressed to one name, in order, and the machine that
    results from taking them one after the other. *)
Definition addressed (name : string) (sent : list Delivery) : list Delivery :=
  filter (fun d : Delivery => d.1 = name) sent.

Definition replay (ds : list Delivery) (w : World) : World :=
  foldl (fun w (d : Delivery) => (send d.2 w).2) w ds.

(** The machines [ifs] are those of [ifs0] after the deliveries [sent]. *)
Definition consistent (ifs0 ifs : gmap string World) (sent : list Delivery)
    : Prop :=
  forall name, ifs !! name = replay (addressed name sent) <$> ifs0 !! name.

(** How often a name is listed in a tree. *)
Definition occurrences (name : string) (cfg : NodePtr) : nat :=
  length (filter (fun n => n = name) (listConfigInterfaces cfg)).

End Manager.

(** ** The dispatcher ([dispatcher.go]) *)
Module Dispatcher.

Import Manager.

(** [rpc.DB] and [rpc.NodeStatus] of the configd RPC package. *)
Inductive DB : Type := AUTO | RUNNING | CANDIDATE | EFFECTIVE.
Inductive NodeStatus : Type := UNCHANGED | CHANGED | ADDED | DELETED.

Inductive UnionOption : Type := IncludeDefaults | HideSecrets.

(** What a dispatcher method gives back: a value with a nil error, an error,
    or a run-time panic (nil dereference, index out of range). *)
Inductive Result (A : Type) : Type :=
| Return (a : A)
| Failure (e : MgmtError)
| Panic.
Arguments Return {A} a.
Arguments Failure {A} e.
Arguments Panic {A}.

(** [pathutil.Makepath]: the segments between slashes, empty ones dropped. *)
Fixpoint segments (s : string) : list string :=
  match s with
  | EmptyString => [""]
  | String c rest =>
      if bool_decide (c = "/"%char) then "" :: segments rest
      else match segments rest with
           | seg :: segs => String c seg :: segs
           | [] => [String c ""]
           end
  end.

Definition Makepath (path : string) : list string :=
  filter (fun seg => seg ≠ "") (segments path).

(** A node of the tree built by [diff.NewNode]: the answers of the type
    assertions on its schema, the three flags of the comparison, and its
    children.  The parent is found on the way down. *)
Record SchemaKind : Type := mkKind {
  isLeafValue : bool;
  isLeaf : bool;
  isLeafList : bool
}.

#[warnings="-register-all"] Inductive diffNode : Type :=
  mkDiff (name : string) (sch : SchemaKind) (added deleted changed : bool)
         (children : list diffNode).

Definition diffName (n : diffNode) : string :=
  let 'mkDiff s _ _ _ _ _ := n in s.
Definition Schema (n : diffNode) : SchemaKind :=
  let 'mkDiff _ k _ _ _ _ := n in k.
Definition Added (n : diffNode) : bool :=
  let 'mkDiff _ _ a _ _ _ := n in a.
Definition Deleted (n : diffNode) : bool :=
  let 'mkDiff _ _ _ d _ _ := n in d.
Definition Changed (n : diffNode) : bool :=
  let 'mkDiff _ _ _ _ c _ := n in c.
Definition diffChildren (n : diffNode) : list diffNode :=
  let 'mkDiff _ _ _ _ _ cs := n in cs.

(** [diffTree.Descendant(ps)] together with what [Parent()] answers on the
    result; [None] is the nil node. *)
Fixpoint diffDescendant (parent : option diffNode) (n : diffNode)
    (ps : list string) : option (diffNode * option diffNode) :=
  match ps with
  | [] => Some (n, parent)
  | p :: rest =>
      match List.find (fun c => bool_decide (diffName c = p))
                      (diffChildren n) with
      | Some c => diffDescendant (Some n) c rest
      | None => None
      end
  end.

(** The services consumed as they are: the union tree's marshaller and the
    comparison of two trees. *)
Class Codec : Type := {
  Marshal : option Node -> string -> string -> list UnionOption ->
            string + MgmtError;
  diff_NewNode : option Node -> option Node -> Sessions.SchemaNode -> diffNode
}.

(** [union.NewNode(data, nil, schema, nil, 0)] is a view of [data]; its
    [Descendant] walks the children by name and answers the view itself on
    the empty path. *)
Fixpoint descend (n : Node) (ps : list string) : option Node :=
  match ps with
  | [] => Some n
  | p :: rest =>
      match Child p n with
      | Some c => descend c rest
      | None => None
      end
  end.

Definition union_Descendant (u : option Node) (ps : list string)
    : option (option Node) :=
  match ps, u with
  | [], _ => Some u
  | _, None => None
  | _, Some n => Some <$> descend n ps
  end.


(** [getTree]; [None] is the panic of reading a field of a nil session. *)
Definition getTree (db : DB) (sid : string) (c : Core)
    : option (option Node) :=
  match Sessions.Get sid (sessionmgr c) with
  | None => None
  | Some session =>
      match db with
      | EFFECTIVE | AUTO | CANDIDATE => Some (Sessions.candidate session)
      | RUNNING => Some (Sessions.running session)
      end
  end.

(** [TreeGet]; a flag that is not a bool counts as false, so the flags are
    a map to bool. *)
Definition TreeGet `{Codec} (db : DB) (sid path encoding : string)
    (flags : gmap string bool) (c : Core) : Result string :=
  let ps := Makepath path in
  match getTree db sid c with
  | None => Panic
  | Some tree =>
      match union_Descendant tree ps with
      | None =>
          match last ps with
          | None => Panic
          | Some l =>
              let err := NewUnknownElementApplicationError l in
              Failure (set_Path (removelast ps) err)
          end
      | Some ut =>
          let options :=
            match flags !! "Defaults" with
            | Some true => [IncludeDefaults]
            | _ => []
            end in
          let secrets :=
            match flags !! "Secrets" with
            | Some b => b
            | None => false
            end in
          let options :=
            if secrets then options else options ++ [HideSecrets] in
          match Marshal ut "data" encoding options with
          | inl s => Return s
          | inr e => Failure e
          end
      end
  end.


(** The switch of [NodeGetStatus] on a node that exists. *)
Definition status_switch (dn : diffNode) (parent : option diffNode)
    : NodeStatus :=
  let isLeafVal := isLeafValue (Schema dn) in
  let parentIsLeaf :=
    match parent with Some p => isLeaf (Schema p) | None => false end in
  let parentIsLeafList :=
    match parent with Some p => isLeafList (Schema p) | None => false end in
  if Deleted dn then DELETED
  else if isLeafVal && parentIsLeaf then CHANGED
  else if Added dn then ADDED
  else if Changed dn then CHANGED
  else if isLeafVal && parentIsLeafList &&
          match parent with Some p => Changed p | None => false end
       then CHANGED
  else UNCHANGED.

(** [NodeGetStatus]; on the missing node the source returns [UNCHANGED] next
    to the error. *)
Definition NodeGetStatus `{Codec} (db : DB) (sid path : string) (c : Core)
    : Result NodeStatus :=
  match Sessions.Get sid (sessionmgr c) with
  | None => Panic
  | Some session =>
      let diffTree :=
        diff_NewNode (Sessions.candidate session) (Sessions.running session)
                     (SchemaTree c) in
      let ps := Makepath path in
      match diffDescendant None diffTree ps with
      | None =>
          let err := NewDataMissingError in
          Failure (set_Message "Node does not exist" err)
      | Some (dn, parent) => Return (status_switch dn parent)
      end
  end.

(** The two compatibility cases of the status, in the words of the design
    document: a leaf value whose parent is a leaf, and a leaf value whose
    parent is a leaf-list that is itself changed. *)
Definition leafValueOfLeaf (dn : diffNode) (parent : option diffNode) : bool :=
  match parent with
  | Some p => isLeafValue (Schema dn) && isLeaf (Schema p)
  | None => false
  end.

Definition leafValueOfChangedLeafList (dn : diffNode)
    (parent : option diffNode) : bool :=
  match parent with
  | Some p => isLeafValue (Schema dn) && isLeafList (Schema p) && Changed p
  | None => false
  end.

End Dispatcher.

(** ** Concrete trees, machines and executions *)
Module Examples.

Import Machine.

Definition intf_tree (type name value : string) : Node :=
  mkNode "root"
    [mkNode "interfaces"
       [mkNode type [mkNode name [mkNode "address" [mkNode value []]]]]].

Definition tree_A : NodePtr :=
  Some (mkRef 1 (intf_tree "dataplane" "dp0" "10.0.0.1/24")).
Definition tree_B : NodePtr :=
  Some (mkRef 2 (intf_tree "dataplane" "dp0" "10.0.0.2/24")).

(** A run of the transition system from a given world. *)
Fixpoint run_labels (ls : list Label) (w : World) : option World :=
  match ls with
  | [] => Some w
  | l :: rest =>
      match step l w with
      | Some w' => run_labels rest w'
      | None => None
      end
  end.

Definition after (ls : list Label) (name : string) : World :=
  match run_labels ls (NewIntfMachine name) with
  | Some w => w
  | None => NewIntfMachine name
  end.

(** Register, Apply(A), Plug: the commit of A is running. *)
Definition to_applying : list Label :=
  [Deliver (mkMessage Apply tree_A); Deliver (mkMessage Plug nil)].

(** ... then the commit returns and its Done is taken: Plugged, running A. *)
Definition to_plugged : list Label :=
  to_applying ++ [Complete 0 true; SendDone 0].

(** ... or Apply(B) arrives while the commit of A runs, which then returns. *)
Definition to_coalesced : list Label :=
  to_applying ++ [Deliver (mkMessage Apply tree_B); Complete 0 true].

Definition applying_world : World := after to_applying "dp0".
Definition plugged_world : World := after to_plugged "dp0".
Definition coalesced_world : World := after to_coalesced "dp0".
Definition shutdown_world : World :=
  after [Deliver (mkMessage Kill nil)] "dp0".

Definition after_SendDone (w : World) : World :=
  match step (SendDone 0) w with
  | Some w' => w'
  | None => w
  end.

(** A tree that lists dp0 under two interface types. *)
Definition tree_twice : NodePtr :=
  Some (mkRef 3
    (mkNode "root"
       [mkNode "interfaces"
          [mkNode "dataplane" [mkNode "dp0" []];
           mkNode "vhost" [mkNode "dp0" []]]])).

(** A manager that has seen no tree and manages dp0, absent from the
    kernel; and one that manages dp0 and dp1. *)
Definition mgr_dp0 : Manager.IntfManager :=
  (Manager.Register false "dp0" Manager.NewIntfManager).1.
Definition mgr_two : Manager.IntfManager :=
  (Manager.Register false "dp1" mgr_dp0).1.

(** A registry holding one session. *)
Definition one_session : Sessions.Sessions :=
  {["s1" := Sessions.mkSession (deref tree_B) (deref tree_A) 0]}.

(** A stand-in for the codec: it marshals every tree to the same text, and
    compares any two trees to the same result, in which the leaf-list
    [address] of dp0 is changed and its value is neither added nor
    deleted. *)
Definition leaf_value : Dispatcher.SchemaKind :=
  Dispatcher.mkKind true false false.
Definition leaf_list : Dispatcher.SchemaKind :=
  Dispatcher.mkKind false false true.
Definition container : Dispatcher.SchemaKind :=
  Dispatcher.mkKind false false false.

Definition diff_AB : Dispatcher.diffNode :=
  Dispatcher.mkDiff "root" container false false true
    [Dispatcher.mkDiff "interfaces" container false false true
       [Dispatcher.mkDiff "dataplane" container false false true
          [Dispatcher.mkDiff "dp0" container false false true
             [Dispatcher.mkDiff "address" leaf_list false false true
                [Dispatcher.mkDiff "10.0.0.1" leaf_value false false false [];
                 Dispatcher.mkDiff "10.0.0.2" leaf_value true false false
                   []]]]]].

Definition codec : Dispatcher.Codec :=
  {| Dispatcher.Marshal := fun _ _ _ _ => inl "{}";
     Dispatcher.diff_NewNode := fun _ _ _ => diff_AB |}.

Definition core_dp0 : Manager.Core :=
  Manager.mkCore
    (Manager.mkManager tree_A {["dp0" := plugged_world]}) one_session 0.

End Examples.

(** ** More of the state machine: the shutdown probe and what each state
    means *)
Module MachineExt.

Import Machine.

(** [IsShutdown]: a probe message; the machine has no transition for it. *)
Definition IsShutdown : M bool :=
  ok ← send (mkMessage Machine.IsShutdown nil); mret (negb ok).

(** The interface a notification is about. *)
Definition note_name (n : Notification) : string :=
  match n with
  | InterfaceState name _ => name
  | ConfigurationUpdated name => name
  end.

(** What the state of a machine says about the rest of its world. *)
Definition settled (w : World) : Prop :=
  let m := mach w in
  match curState m with
  | Unplugged =>
      goroutines w = [] /\ running m = nil /\ plugged m = false /\
      killReq m = false /\ done m = false
  | Plugged =>
      goroutines w = [] /\ ptr_eqb (running m) (candidate m) = true /\
      plugged m = true /\ killReq m = false /\ done m = false
  | Applying =>
      done m = false /\
      exists c r s, goroutines w = [mkGoroutine (applyTask c r) s] /\
                    running m = (if s then c else r)
  | Unapplying | Shuttingdown =>
      done m = false /\
      exists s, goroutines w = [mkGoroutine unapplyTask s] /\
                (s = true -> running m = nil)
  | Shutdown =>
      goroutines w = [] /\ running m = nil /\ done m = true
  end.

(** The messages that stage a configuration. *)
Definition staging (msg : message) : Prop :=
  typ msg = Apply \/ typ msg = Reset.

(** The steps of the goroutines, as opposed to deliveries from outside. *)
Definition internal (l : Label) : Prop :=
  match l with Deliver _ => False | _ => True end.

End MachineExt.

(** ** What the manager keeps true of the machines it holds *)
Module ManagerExt.

Import Machine Manager.

(** A machine that nobody has told to stop. *)
Definition live (w : World) : Prop :=
  done (mach w) = false /\ killReq (mach w) = false /\
  curState (mach w) <> Shuttingdown /\ curState (mach w) <> Shutdown.

(** Every machine of the map is registered under its own name and is
    live. *)
Definition well_managed (mgr : IntfManager) : Prop :=
  forall name w, interfaces mgr !! name = Some w ->
                 ifname (mach w) = name /\ live w.

End ManagerExt.

(** ** More of the dispatcher: path validation and [Exists] *)
Module DispatcherExt.

Import Manager Dispatcher.

(** The schema tree and the union tree as far as these methods use them:
    the child of a schema node by name (nil when there is none) and the
    error, or nil, of the union tree's own [Exists]. *)
Class TreeLib : Type := {
  SchemaChild : Sessions.SchemaNode -> string -> option Sessions.SchemaNode;
  union_Exists : option Node -> list string -> option MgmtError
}.

(** The loop of [validatePath] from element [i] on: [walked] is [ps[:i]]. *)
Fixpoint validate_from `{TreeLib} (sn : Sessions.SchemaNode)
    (walked ps : list string) : option MgmtError :=
  match ps with
  | [] => None
  | v :: rest =>
      match SchemaChild sn v with
      | None =>
          let err := NewUnknownElementApplicationError v in
          Some (set_Path walked err)
      | Some sn' => validate_from sn' (walked ++ [v]) rest
      end
  end.

Definition validatePath `{TreeLib} (ps : list string) (c : Core)
    : option MgmtError :=
  validate_from (SchemaTree c) [] ps.

(** [Exists]: the path is checked against the schema before the session is
    looked at. *)
Definition Exists `{TreeLib} (db : DB) (sid path : string) (c : Core)
    : Result bool :=
  let ps := Makepath path in
  match validatePath ps c with
  | Some err => Failure err
  | None =>
      match getTree db sid c with
      | None => Panic
      | Some ut =>
          match union_Exists ut ps with
          | None => Return true
          | Some _ => Return false
          end
      end
  end.

(** [SessionExists] *)
Definition SessionExists (sid : string) (c : Core) : Result bool :=
  match Sessions.Get sid (sessionmgr c) with
  | Some _ => Return true
  | None => Return false
  end.

(** Following a path down the schema. *)
Fixpoint schema_walk `{TreeLib} (sn : Sessions.SchemaNode)
    (ps : list string) : option Sessions.SchemaNode :=
  match ps with
  | [] => Some sn
  | v :: rest =>
      match SchemaChild sn v with
      | Some sn' => schema_walk sn' rest
      | None => None
      end
  end.


(** The options [TreeGet] hands to the marshaller. *)
Definition marshal_options (flags : gmap string bool) : list UnionOption :=
  (if bool_decide (flags !! "Defaults" = Some true)
   then [IncludeDefaults] else []) ++
  (if bool_decide (flags !! "Secrets" = Some true)
   then [] else [HideSecrets]).

End DispatcherExt.

(** ** Serving a connection ([conn.go], [server.go]) *)
Module Conn.

(** What the code asks of package [reflect] and of [fmt]: the dynamic type
    of a decoded argument (nil for JSON null), whether a type converts to
    another, the conversion, a type's name, and the texts of the verbs %v
    and %T. *)
Class Reflect : Type := {
  Value : Type;
  GoType : Type;
  GoType_eq_dec :: EqDecision GoType;
  TypeOf : Value -> option GoType;
  ConvertibleTo : GoType -> GoType -> bool;
  Convert : Value -> GoType -> Value;
  TypeName : GoType -> string;
  fmt_v : Value -> string;
  fmt_T : Value -> string
}.

(** The errors [Call] can return: its own three, or the one the method
    returned, kept as its text. *)
Inductive CallError `{Reflect} : Type :=
| MethErr (Name : string)
| ArgNErr (Method : string) (Len Elen : nat)
| ArgErr (Method : string) (Farg : Value) (Typ Etyp : string)
| MethodError (text : string).

(** The [Error] methods. *)
Definition Error `{Reflect} (e : CallError) : string :=
  match e with
  | MethErr name => "unknown method " +:+ name
  | ArgNErr method len elen =>
      if bool_decide (elen < len)
      then "too many arguments in call to " +:+ method +:+ " expected " +:+
           pretty elen +:+ " got " +:+ pretty len
      else "too few arguments in call to " +:+ method +:+ " expected " +:+
           pretty elen +:+ " got " +:+ pretty len
  | ArgErr method farg typ etyp =>
      if bool_decide (typ = "")
      then "cannot use " +:+ fmt_v farg +:+ " (type " +:+ fmt_T farg +:+
           ") as type " +:+ etyp +:+ " in call to " +:+ method
      else "cannot use " +:+ fmt_v farg +:+ " (type " +:+ typ +:+
           ") as type " +:+ etyp +:+ " in call to " +:+ method
  | MethodError text => text
  end.

(** An entry of [Srv.m]: the types of the parameters after the receiver, and
    what calling the method does to the state [S] of the daemon; it returns
    its first result and its error, nil or the error's text. *)
Record Method `{Reflect} (S : Type) : Type := mkMethod {
  params : list GoType;
  body : list Value -> S -> (Value * option string) * S
}.
Arguments mkMethod {_ S} _ _.
Arguments params {_ S} m.
Arguments body {_ S} m.

Inductive Checked `{Reflect} : Type :=
| ArgsOk (vals : list Value)
| ArgsErr (e : CallError)
| ArgsPanic.

(** The loop that validates the arguments.  [reflect.TypeOf] of a nil
    interface is the nil type, on which [ConvertibleTo] panics. *)
Fixpoint check_args `{Reflect} (method : string) (args : list Value)
    (types : list GoType) : Checked :=
  match args, types with
  | [], _ => ArgsOk []
  | _ :: _, [] => ArgsPanic
  | v :: args', t2 :: types' =>
      match TypeOf v with
      | None => ArgsPanic
      | Some t1 =>
          let rest v' :=
            match check_args method args' types' with
            | ArgsOk vals => ArgsOk (v' :: vals)
            | other => other
            end in
          if decide (t1 = t2) then rest v
          else if ConvertibleTo t1 t2 then rest (Convert v t2)
          else ArgsErr (ArgErr method v (TypeName t1) (TypeName t2))
      end
  end.

(** [Call]: [None] is a panic, otherwise the two results. *)
Definition Call `{Reflect} {S : Type} (m : gmap string (Method S))
    (method : string) (args : list Value) (st : S)
    : option (option Value * option CallError) * S :=
  match m !! method with
  | None => (Some (None, Some (MethErr method)), st)
  | Some meth =>
      if decide (length args <> length (params meth))
      then (Some (None,
                  Some (ArgNErr method (length args) (length (params meth)))),
            st)
      else
        match check_args method args (params meth) with
        | ArgsPanic => (None, st)
        | ArgsErr e => (Some (None, Some e), st)
        | ArgsOk vals =>
            let '((r, err), st') := body meth vals st in
            (Some (Some r, MethodError <$> err), st')
        end
  end.

Record Request `{Reflect} : Type := mkRequest {
  Req_Method : string;
  Req_Args : list Value;
  Req_Id : Z
}.

Record Response `{Reflect} : Type := mkResponse {
  Result : option Value;
  Resp_Error : option string;
  Resp_Id : Z
}.
Arguments mkRequest {_} _ _ _.
Arguments mkResponse {_} _ _ _.

Definition newResponse `{Reflect} (result : option Value)
    (err : option CallError) (id : Z) : Response :=
  match err with
  | Some e => mkResponse None (Some (Error e)) id
  | None => mkResponse result None id
  end.

(** What [Handle] answers to one request: [None] when [Call] panics. *)
Definition respond `{Reflect} {S : Type} (m : gmap string (Method S))
    (req : Request) (st : S) : option Response * S :=
  match Call m (Req_Method req) (Req_Args req) st with
  | (Some (result, err), st') =>
      (Some (newResponse result err (Req_Id req)), st')
  | (None, st') => (None, st')
  end.

(** *** The secrets flag of a connection *)

Inductive ConnError : Type :=
| LoginPidError (pid : Z)
| SysError (text : string).

Definition IsLoginPidError (e : ConnError) : bool :=
  match e with LoginPidError _ => true | SysError _ => false end.

Definition ConnError_text (e : ConnError) : string :=
  match e with
  | LoginPidError pid => "Login User Id is not set for PID " +:+ pretty pid
  | SysError text => text
  end.

Record Ucred : Type := mkUcred { Pid : Z; Uid : N; Gid : N }.

(** The system as the connection sees it: the error of [conn.File], the
    peer credentials of the socket, the audit login uid of a process and the
    names of the groups of a user. *)
Record System : Type := mkSystem {
  conn_File : option string;
  GetsockoptUcred : Ucred + string;
  GetPidLoginuid : Z -> N + string;
  LookupUid : string -> list string + string
}.

(** [^uint32(0)] *)
Definition unset_uid : N := 4294967295.

Definition getLoginUid (sys : System) (pid : Z) : N * option ConnError :=
  match GetPidLoginuid sys pid with
  | inr e => (0%N, Some (SysError e))
  | inl u =>
      if bool_decide (u = unset_uid) then (0%N, Some (LoginPidError pid))
      else (u, None)
  end.

Definition getCreds (sys : System) : Ucred + ConnError :=
  match conn_File sys with
  | Some err => inr (SysError err)
  | None =>
      match GetsockoptUcred sys with
      | inr err => inr (SysError err)
      | inl cred =>
          let uid := (getLoginUid sys (Pid cred)).1 in
          inl (mkUcred (Pid cred) uid (Gid cred))
      end
  end.

(** The login uid used for a process: the audit login uid, and 0 when it
    cannot be read or is the value that stands for "not set". *)
Definition login_or_zero (sys : System) (pid : Z) : N :=
  match GetPidLoginuid sys pid with
  | inl u => if bool_decide (u = unset_uid) then 0%N else u
  | inr _ => 0%N
  end.

(** The first part of [Handle]: the value of [secrets] given to the
    dispatcher of the connection. *)
Definition handle_secrets (sys : System) : bool :=
  match getCreds sys with
  | inr _ => false
  | inl cred =>
      match LookupUid sys (pretty (Uid cred)) with
      | inr _ => false
      | inl groups =>
          foldl (fun secrets gr =>
                   if bool_decide (gr = "secrets") then true else secrets)
                false groups
      end
  end.

End Conn.

(** ** The control utility ([cmd/ifmgrctl]) and the client *)
Module Ctl.

(** [strings.LastIndex(name, ".")]: the index of the last dot, -1 when there
    is none. *)
Fixpoint lastIndexFrom (c : ascii) (s : string) (i found : Z) : Z :=
  match s with
  | EmptyString => found
  | String a rest =>
      lastIndexFrom c rest (i + 1)
                    (if bool_decide (a = c) then i else found)
  end.

Definition LastIndex_dot (s : string) : Z := lastIndexFrom "."%char s 0 (-1).

(** [s[n:]] for [n] within the string. *)
Fixpoint slice_from (n : nat) (s : string) : string :=
  match n, s with
  | 0, _ => s
  | S n', String _ rest => slice_from n' rest
  | S _, EmptyString => EmptyString
  end.

(** [GetFuncName]; the argument is the name [runtime] gives for the caller,
    nil when it has none. *)
Definition GetFuncName (caller : option string) : string :=
  match caller with
  | None => "invalid"
  | Some name =>
      let i := LastIndex_dot name in
      slice_from (Z.to_nat (i + 1)) name
  end.

Fixpoint has_byte (c : ascii) (s : string) : bool :=
  match s with
  | EmptyString => false
  | String a rest => bool_decide (a = c) || has_byte c rest
  end.

(** How an action's [run] ends: a panic, or the error it returns together
    with the calls (method and argument) it made to the daemon. *)
Inductive Ran : Type :=
| RunPanic
| RunDone (err : option string) (sent : list (string * string)).

(** What the utility finds around it: the variable INTERFACE (empty when
    unset), the error of dialling the daemon, the error a client call ends
    with ([callBoolIgnore]), and what the [apply] action does, which talks
    to configd. *)
Record Env : Type := mkEnv {
  INTERFACE : string;
  dial : option string;
  rpc : string -> string -> option string;
  apply_run : Ran
}.

Definition getIntfName (env : Env) (args : list string) : string + string :=
  let ifname :=
    match args with
    | [] => INTERFACE env
    | a :: _ => a
    end in
  if bool_decide (ifname = "") then inr "must supply interface name"
  else inl ifname.

(** A client method: one call to the daemon, named after the method. *)
Definition client_call (env : Env) (method arg : string) : Ran :=
  RunDone (rpc env method arg) [(method, arg)].

(** [args[0]] panics on an empty slice. *)
Definition register (env : Env) (args : list string) : Ran :=
  match args with
  | [] => RunPanic
  | a :: _ => client_call env "Register" a
  end.

Definition unregister (env : Env) (args : list string) : Ran :=
  match args with
  | [] => RunPanic
  | a :: _ => client_call env "Unregister" a
  end.

Definition plug (env : Env) (args : list string) : Ran :=
  match getIntfName env args with
  | inr err => RunDone (Some err) []
  | inl ifname => client_call env "Plug" ifname
  end.

Definition unplug (env : Env) (args : list string) : Ran :=
  match getIntfName env args with
  | inr err => RunDone (Some err) []
  | inl ifname => client_call env "Unplug" ifname
  end.

Record action : Type := mkAction {
  name : string;
  description : string;
  run : Env -> list string -> Ran;
  nargs : nat
}.

Definition actions : gmap string action :=
  list_to_map
    [("apply", mkAction "apply" "apply latest config to managed interfaces"
                 (fun env _ => apply_run env) 0);
     ("register", mkAction "register" "register a new device to be managed"
                    register 1);
     ("unregister", mkAction "unregister" "stop managing a device"
                      unregister 1);
     ("plug", mkAction "plug" "send plug event for device" plug 0);
     ("unplug", mkAction "unplug" "send unplug event for device" unplug 0)].

(** How [main] ends: a panic, or an exit code with the lines written to the
    standard error by [main] itself ([usage] writes its table after them)
    and the calls made to the daemon. *)
Inductive Ended : Type :=
| Panicked
| Exit (code : nat) (stderr : list string) (sent : list (string * string)).

Definition main (args : list string) (env : Env) : Ended :=
  match args with
  | [] => Exit 1 ["Must supply action"] []
  | actionname :: args =>
      match actions !! actionname with
      | None => Exit 1 ["Invalid action: " +:+ actionname] []
      | Some act =>
          if bool_decide (length args < nargs act) then
            Exit 1 ["Invalid number of arguments to " +:+ actionname +:+
                    " needs " +:+ pretty (nargs act)] []
          else
            match dial env with
            | Some err => Exit 1 [err] []
            | None =>
                match run act env args with
                | RunPanic => Panicked
                | RunDone (Some err) sent => Exit 1 [err] sent
                | RunDone None sent => Exit 0 [] sent
                end
            end
      end
  end.

End Ctl.

(** ** The dispatcher's forwarders to the manager *)
Module Forward.

Import Manager Dispatcher.

Definition with_intfmgr (mgr : IntfManager) (c : Core) : Core :=
  mkCore mgr (sessionmgr c) (SchemaTree c).

(** [Disp.Register], [Disp.Unregister], [Disp.Plug], [Disp.Unplug]: each
    calls the manager and returns [true, nil].  [present] is what the kernel
    says of the interface. *)
Definition Register (present : bool) (intfName : string) (c : Core)
    : Result bool * Core :=
  (Return true,
   with_intfmgr (Manager.Register present intfName (intfmgr c)).1 c).

Definition Unregister (intfName : string) (c : Core) : Result bool * Core :=
  (Return true, with_intfmgr (Manager.Unregister intfName (intfmgr c)).1.1 c).

Definition Plug (intfName : string) (c : Core) : Result bool * Core :=
  (Return true, with_intfmgr (Manager.Plug intfName (intfmgr c)).1 c).

Definition Unplug (intfName : string) (c : Core) : Result bool * Core :=
  (Return true, with_intfmgr (Manager.Unplug intfName (intfmgr c)).1 c).

End Forward.

(** ** Further concrete worlds *)
Module MoreExamples.

Import Machine.

(** Plugged with A applied, then Unplug: the unapply is running. *)
Definition unplugging_world : World :=
  Examples.after (Examples.to_plugged ++ [Deliver (mkMessage Unplug nil)])
                 "dp0".

(** A schema that knows interfaces/dataplane only, with a union tree whose
    [Exists] fails on the paths that are not in the data. *)
Definition lib : DispatcherExt.TreeLib :=
  {| DispatcherExt.SchemaChild := fun sn v =>
       match sn with
       | 0 => if bool_decide (v = "interfaces") then Some 1 else None
       | 1 => if bool_decide (v = "dataplane") then Some 2 else None
       | _ => None
       end;
     DispatcherExt.union_Exists := fun t ps =>
       match Dispatcher.union_Descendant t ps with
       | Some _ => None
       | None => Some (NewUnknownElementApplicationError "")
       end |}.


(** JSON values as the decoder leaves them, with the types a dispatcher
    method takes; a number converts to an int. *)
Inductive JVal : Type :=
| JNull
| JString (s : string)
| JNumber (z : Z)
| JBool (b : bool).

Definition reflect : Conn.Reflect :=
  {| Conn.Value := JVal;
     Conn.GoType := string;
     Conn.TypeOf := fun v =>
       match v with
       | JNull => None
       | JString _ => Some "string"
       | JNumber _ => Some "float64"
       | JBool _ => Some "bool"
       end;
     Conn.ConvertibleTo := fun t1 t2 =>
       bool_decide (t1 = "float64" /\ t2 = "int");
     Conn.Convert := fun v _ => v;
     Conn.TypeName := fun t => t;
     Conn.fmt_v := fun v =>
       match v with
       | JNull => "<nil>"
       | JString s => s
       | JNumber z => pretty z
       | JBool true => "true"
       | JBool false => "false"
       end;
     Conn.fmt_T := fun v =>
       match v with
       | JNull => "<nil>"
       | JString _ => "string"
       | JNumber _ => "float64"
       | JBool _ => "bool"
       end |}.

(** A method table with one method, which counts its calls. *)
Definition methods : gmap string (@Conn.Method reflect nat) :=
  {["Plug" := @Conn.mkMethod reflect nat ["string"]
                (fun _ n => ((JBool true, None), Datatypes.S n))]}.




(** A peer whose login uid is not set, on a system where root is in the
    group secrets. *)
Definition daemon_peer : Conn.System :=
  Conn.mkSystem None (inl (Conn.mkUcred 321 1000 1000))
    (fun _ => inl Conn.unset_uid)
    (fun uid => if bool_decide (uid = "0") then inl ["root"; "secrets"]
                else inl ["users"]).

End MoreExamples.

(** * Properties *)

(** ** The state machine *)
Section MachineFacts.

Import Machine.

Lemma run_iter_running (msg : message) (w : World) :
  running (mach (run_iter msg w).2) = running (mach w).
Proof.
  destruct w as [[n s c r p k dn] gs em], msg as [t d].
  destruct s, t, k, p; try reflexivity;
    cbv -[ptr_eqb]; destruct (ptr_eqb r c); reflexivity.
Qed.

Lemma run_iter_candidate (msg : message) (w : World) :
  typ msg <> Apply -> typ msg <> Reset ->
  candidate (mach (run_iter msg w).2) = candidate (mach w).
Proof.
  destruct w as [[n s c r p k dn] gs em], msg as [t d].
  intros Ha Hr.
  destruct s, t, k, p; cbn in *; try reflexivity; try congruence;
    cbv -[ptr_eqb]; destruct (ptr_eqb r c); reflexivity.
Qed.

Lemma send_closed (msg : message) (w : World) :
  done (mach w) = true -> send msg w = (false, w).
Proof.
  destruct w as [[n s c r p k dn] gs em]; cbn. intros ->. reflexivity.
Qed.

Lemma send_open (msg : message) (w : World) :
  done (mach w) = false -> send msg w = (true, (run_iter msg w).2).
Proof.
  destruct w as [[n s c r p k dn] gs em]; cbn. intros ->.
  unfold send, mbind, M_bind, gets; cbn.
  destruct (run_iter msg _) as [[] w']. reflexivity.
Qed.

Lemma send_running (msg : message) (w : World) :
  running (mach (send msg w).2) = running (mach w).
Proof.
  destruct (done (mach w)) eqn:Hd.
  - rewrite send_closed by exact Hd. reflexivity.
  - rewrite send_open by exact Hd. apply run_iter_running.
Qed.

Lemma send_candidate (msg : message) (w : World) :
  typ msg <> Apply -> typ msg <> Reset ->
  candidate (mach (send msg w).2) = candidate (mach w).
Proof.
  intros Ha Hr. destruct (done (mach w)) eqn:Hd.
  - rewrite send_closed by exact Hd. reflexivity.
  - rewrite send_open by exact Hd. apply run_iter_candidate; assumption.
Qed.

Lemma run_iter_invariant (msg : message) (w : World) :
  typ msg <> Done -> done (mach w) = false ->
  invariant w -> invariant (run_iter msg w).2.
Proof.
  destruct w as [[n s c r p k dn] gs em], msg as [t d].
  unfold invariant; cbn. intros Ht -> [Hlen Hdn].
  destruct s, t, k, p; try congruence;
    cbv -[ptr_eqb length app] in Hlen |- *;
    rewrite ?length_app, ?Hlen; cbn;
    (split; [lia | intuition congruence]).
Qed.

Lemma run_iter_Done_invariant (d : NodePtr) (w : World) :
  done (mach w) = false ->
  S (length (goroutines w)) = inflight (curState (mach w)) ->
  invariant (run_iter (mkMessage Done d) w).2.
Proof.
  destruct w as [[n s c r p k dn] gs em].
  unfold invariant; cbn. intros -> Hlen.
  destruct s, k, p; cbn in Hlen; try discriminate;
    cbv -[ptr_eqb length app] in Hlen |- *;
    try destruct (ptr_eqb r c);
    rewrite ?length_app; cbn;
    (split; [lia | split; congruence]).
Qed.

Lemma complete_mach (t : Task) (ch : bool) (w : World) :
  let w' := (complete t ch w).2 in
  curState (mach w') = curState (mach w) /\
  done (mach w') = done (mach w) /\
  candidate (mach w') = candidate (mach w) /\
  goroutines w' = goroutines w.
Proof.
  destruct w as [[n s c r p k dn] gs em], t as [tc tr|];
    cbv -[applyIntf].
  - destruct (applyIntf n tc tr ch); repeat split; reflexivity.
  - destruct (applyIntf n None r ch); repeat split; reflexivity.
Qed.

Lemma step_invariant (l : Label) (w w' : World) :
  invariant w -> step l w = Some w' -> invariant w'.
Proof.
  intros Hinv Hstep. destruct l as [msg | i ch | i]; cbn in Hstep.
  - destruct (external (typ msg)) eqn:Hext; [|discriminate].
    injection Hstep as <-.
    destruct (done (mach w)) eqn:Hd.
    + rewrite send_closed by assumption. exact Hinv.
    + rewrite send_open by assumption. cbn.
      apply run_iter_invariant; auto.
      intros E; rewrite E in Hext; discriminate.
  - destruct (goroutines w !! i) as [[t [|]]|] eqn:Hi; try discriminate.
    injection Hstep as <-.
    unfold mbind, M_bind.
    pose proof (complete_mach t ch w) as (Hs & Hd & _ & Hg).
    destruct (complete t ch w) as [[] w1]; cbn in *.
    destruct Hinv as [Hlen Hdn]. unfold invariant; cbn.
    rewrite length_insert, Hg, Hs, Hd. auto.
  - destruct (goroutines w !! i) as [[t [|]]|] eqn:Hi; try discriminate.
    injection Hstep as <-.
    destruct Hinv as [Hlen Hdn].
    assert (Hlt : i < length (goroutines w)) by (eapply lookup_lt_Some; eauto).
    assert (Hdel : S (length (delete i (goroutines w))) = length (goroutines w)).
    { rewrite length_delete by eauto. lia. }
    destruct (done (mach w)) eqn:Hd.
    + assert (curState (mach w) = Shutdown) as Hs by (apply Hdn; reflexivity).
      rewrite Hs in Hlen. cbn in Hlen. lia.
    + unfold mbind, M_bind, set_goroutines.
      rewrite send_open by exact Hd. cbn.
      apply run_iter_Done_invariant; cbn; [exact Hd | congruence].
Qed.

Lemma reachable_invariant (w : World) : reachable w -> invariant w.
Proof.
  induction 1 as [name | l w w' _ IH Hstep].
  - split; [reflexivity | cbn; split; discriminate].
  - eapply step_invariant; eauto.
Qed.

Lemma run_labels_reachable (ls : list Label) (w w' : World) :
  reachable w -> Examples.run_labels ls w = Some w' -> reachable w'.
Proof.
  revert w. induction ls as [|l ls IH]; cbn; intros w Hw Hrun.
  - injection Hrun as <-. exact Hw.
  - destruct (step l w) as [w1|] eqn:Hstep; [|discriminate].
    eapply IH; [|exact Hrun]. eapply reachable_step; eauto.
Qed.

(** Scenario S1 of the design document, with one Apply during the commit of
    A: it is followed by one more commit, of the tree staged last. *)
Example coalescing_scenario :
  let w := Examples.after
             (Examples.to_coalesced ++
              [SendDone 0; Complete 0 true; SendDone 0]) "dp0" in
  curState (mach w) = Plugged /\
  running (mach w) = Examples.tree_B /\
  goroutines w = [] /\
  emitted w = [InterfaceState "dp0" "plugged"; ConfigurationUpdated "dp0";
               ConfigurationUpdated "dp0"].
Proof. repeat split. Qed.











(** A delivery to a machine that has a goroutine in flight starts none. *)
Lemma busy_run_iter_goroutines (msg : message) (w : World) :
  typ msg <> Done -> inflight (curState (mach w)) = 1 ->
  goroutines (run_iter msg w).2 = goroutines w.
Proof.
  destruct w as [[n s c r p k dn] gs em], msg as [t d]; cbn.
  intros Ht Hs. destruct s, t; cbn in Hs; try discriminate; try congruence;
    reflexivity.
Qed.

(** C3.  In every reachable world the machine has at most one goroutine that
    it started and has not heard Done from; in Applying and Unapplying an
    Apply or a Reset only stores the candidate; and while a goroutine is in
    flight, the only step that begins a new commit is the processing of its
    Done. *)
Theorem one_commit_in_flight (w : World) :
  reachable w ->
  length (goroutines w) <= 1 /\
  (forall t c,
      curState (mach w) = Applying \/ curState (mach w) = Unapplying ->
      t = Apply \/ t = Reset ->
      step (Deliver (mkMessage t c)) w =
      Some (with_machine (with_candidate c) w)) /\
  (forall l w',
      goroutines w <> [] -> step l w = Some w' ->
      committing w < committing w' -> exists i, l = SendDone i).
Proof.
  intros Hr. pose proof (reachable_invariant w Hr) as [Hlen Hdn].
  split; [|split].
  - rewrite Hlen. destruct (curState (mach w)); cbn; lia.
  - intros t c Hs Ht.
    assert (done (mach w) = false) as Hd.
    { destruct (done (mach w)); [|reflexivity].
      destruct Hdn as [Hdn _]. specialize (Hdn eq_refl).
      destruct Hs; congruence. }
    destruct w as [[n s cd r p k dn] gs em]; cbn in *; subst dn.
    destruct Hs as [-> | ->], Ht as [-> | ->]; reflexivity.
  - intros l w' Hne Hstep Hlt.
    assert (inflight (curState (mach w)) = 1) as Hin.
    { destruct (goroutines w); [congruence|].
      destruct (curState (mach w)); cbn in *; congruence. }
    assert (done (mach w) = false) as Hd.
    { destruct (done (mach w)); [|reflexivity].
      destruct Hdn as [Hdn _]. rewrite (Hdn eq_refl) in Hin. discriminate. }
    destruct l as [msg | i ch | i]; [| |eauto]; exfalso; cbn in Hstep.
    + destruct (external (typ msg)) eqn:Hext; [|discriminate].
      injection Hstep as <-. rewrite send_open in Hlt by exact Hd.
      unfold committing in Hlt; cbn in Hlt.
      rewrite busy_run_iter_goroutines in Hlt; [lia | | exact Hin].
      intros E; rewrite E in Hext; discriminate.
    + destruct (goroutines w !! i) as [[t [|]]|] eqn:Hi; try discriminate.
      injection Hstep as <-.
      unfold mbind, M_bind in Hlt.
      pose proof (complete_mach t ch w) as (_ & _ & _ & Hg).
      destruct (complete t ch w) as [[] w1]; cbn in *.
      unfold committing in Hlt; cbn in Hlt. rewrite Hg in Hlt.
      rewrite Hin in Hlen.
      destruct (goroutines w) as [|g [|g' gs]]; cbn in Hlen; try lia.
      destruct i; cbn in Hi; [|discriminate]. injection Hi as ->.
      cbv in Hlt. lia.
Qed.

Lemma one_commit_in_flight_witness :
  length (goroutines Examples.applying_world) <= 1 /\
  step (Deliver (mkMessage Apply Examples.tree_B)) Examples.applying_world =
  Some (with_machine (with_candidate Examples.tree_B)
                     Examples.applying_world).
Proof.
  assert (reachable Examples.applying_world) as Hr.
  { apply (run_labels_reachable Examples.to_applying (NewIntfMachine "dp0"));
      [apply reachable_new | reflexivity]. }
  destruct (one_commit_in_flight Examples.applying_world Hr) as (H1 & H2 & _).
  split; [exact H1|].
  apply H2; left; reflexivity.
Defined.

(** C4.  Of all the steps of a machine and its goroutines, only the
    completion of a commit changes [running], and only the processing of an
    Apply or a Reset changes [candidate]. *)
Theorem pointer_writers (l : Label) (w w' : World) :
  step l w = Some w' ->
  (completes l = false -> running (mach w') = running (mach w)) /\
  (stages l = false -> candidate (mach w') = candidate (mach w)).
Proof.
  intros Hstep. destruct l as [msg | i ch | i]; cbn in Hstep.
  - destruct (external (typ msg)); [|discriminate]. injection Hstep as <-.
    split; intros Hl.
    + apply send_running.
    + apply send_candidate; destruct msg as [[] d]; cbn in *; congruence.
  - destruct (goroutines w !! i) as [[t [|]]|]; try discriminate.
    injection Hstep as <-. split; [discriminate|]. intros _.
    unfold mbind, M_bind.
    pose proof (complete_mach t ch w) as (_ & _ & Hc & _).
    destruct (complete t ch w) as [[] w1]; cbn in *. exact Hc.
  - destruct (goroutines w !! i) as [[t [|]]|]; try discriminate.
    injection Hstep as <-. unfold mbind, M_bind, set_goroutines.
    split; intros _.
    + apply (send_running (mkMessage Done nil)
               (mkWorld (mach w) (delete i (goroutines w)) (emitted w))).
    + apply (send_candidate (mkMessage Done nil)
               (mkWorld (mach w) (delete i (goroutines w)) (emitted w)));
        discriminate.
Qed.

Lemma pointer_writers_witness :
  let w' := Examples.after_SendDone Examples.coalesced_world in
  running (mach w') = running (mach Examples.coalesced_world) /\
  candidate (mach w') = candidate (mach Examples.coalesced_world).
Proof.
  destruct (pointer_writers (SendDone 0) Examples.coalesced_world
              (Examples.after_SendDone Examples.coalesced_world) eq_refl)
    as [Hr Hc].
  split; [apply Hr | apply Hc]; reflexivity.
Defined.

(** C10.  Once a machine is in Shutdown, every send returns false at once
    and leaves the world as it is, and no step of the machine or of a
    goroutine changes anything any more. *)
Theorem shutdown_is_final (w : World) :
  reachable w -> curState (mach w) = Shutdown ->
  (forall msg, send msg w = (false, w)) /\
  (forall l w', step l w = Some w' -> w' = w).
Proof.
  intros Hr Hs. pose proof (reachable_invariant w Hr) as [Hlen Hdn].
  assert (done (mach w) = true) as Hd by (apply Hdn; exact Hs).
  rewrite Hs in Hlen. cbn in Hlen.
  destruct (goroutines w) as [|g gs] eqn:Hg; [|discriminate].
  split.
  - intros msg. apply send_closed, Hd.
  - intros l w' Hstep. destruct l as [msg | i ch | i]; cbn in Hstep.
    + destruct (external (typ msg)); [|discriminate].
      rewrite send_closed in Hstep by exact Hd. cbn in Hstep. congruence.
    + rewrite Hg in Hstep. discriminate.
    + rewrite Hg in Hstep. discriminate.
Qed.

Lemma shutdown_is_final_witness :
  send (mkMessage Apply Examples.tree_A) Examples.shutdown_world =
  (false, Examples.shutdown_world).
Proof.
  assert (reachable Examples.shutdown_world) as Hr.
  { apply (run_labels_reachable [Deliver (mkMessage Kill nil)]
             (NewIntfMachine "dp0")); [apply reachable_new | reflexivity]. }
  apply (shutdown_is_final Examples.shutdown_world Hr eq_refl).
Defined.

End MachineFacts.

(** ** The interface manager *)
Section ManagerFacts.

Import Machine Manager.

Lemma addressed_snoc (name n : string) (m : message) (sent : list Delivery) :
  addressed name (sent ++ [(n, m)]) =
  addressed name sent ++ (if decide (n = name) then [(n, m)] else []).
Proof.
  unfold addressed. rewrite filter_app. reflexivity.
Qed.

Lemma consistent_refl (ifs : gmap string World) : consistent ifs ifs [].
Proof. intros name. cbn. destruct (ifs !! name); reflexivity. Qed.

Lemma consistent_managed (ifs0 ifs : gmap string World) sent name :
  consistent ifs0 ifs sent -> is_Some (ifs !! name) <-> is_Some (ifs0 !! name).
Proof. intros H. rewrite (H name). apply fmap_is_Some. Qed.

Lemma consistent_deliver (ifs0 ifs : gmap string World) sent n m :
  consistent ifs0 ifs sent ->
  consistent ifs0 (deliver n m ifs) (sent ++ [(n, m)]).
Proof.
  intros H name. unfold deliver. rewrite addressed_snoc.
  destruct (decide (n = name)) as [->|E].
  - rewrite lookup_alter_eq, (H name).
    destruct (ifs0 !! name) as [w|]; cbn; [|reflexivity].
    unfold replay. rewrite foldl_app. reflexivity.
  - rewrite lookup_alter_ne by exact E. rewrite app_nil_r. apply H.
Qed.

Lemma apply_loop_spec (cfg : NodePtr) (ifs0 : gmap string World)
    (l : list string) :
  forall ifs seen sent ifs' seen' sent',
    consistent ifs0 ifs sent ->
    foldl (apply_loop cfg) (ifs, seen, sent) l = (ifs', seen', sent') ->
    consistent ifs0 ifs' sent' /\
    (forall n, n ∈ seen' <-> n ∈ seen \/ (n ∈ l /\ is_Some (ifs0 !! n))) /\
    (forall n, addressed n sent' =
               addressed n sent ++
               if decide (is_Some (ifs0 !! n))
               then replicate (length (filter (fun x => x = n) l))
                              (n, mkMessage Machine.Apply cfg)
               else []).
Proof.
  induction l as [|x l IH]; intros ifs seen sent ifs' seen' sent' Hc Hf.
  - cbn in Hf. injection Hf as <- <- <-. split; [exact Hc|]. split.
    + intros n. rewrite elem_of_nil. tauto.
    + intros n. cbn. destruct (decide _); rewrite app_nil_r; reflexivity.
  - cbn [foldl] in Hf.
    pose proof (consistent_managed _ _ _ x Hc) as Hx.
    unfold apply_loop at 2 in Hf.
    destruct (ifs !! x) as [w|] eqn:Hw.
    + assert (is_Some (ifs0 !! x)) as Hx0 by (apply Hx; eauto).
      apply IH in Hf; [|apply consistent_deliver, Hc].
      destruct Hf as (Hc' & Hseen & Hsent). split; [exact Hc'|]. split.
      * intros n. rewrite Hseen, elem_of_union, elem_of_singleton,
          elem_of_cons.
        split; [intros [[->|?]|[? ?]] | intros [?|[[->|?] ?]]]; auto.
      * intros n. rewrite Hsent, addressed_snoc, <- app_assoc. f_equal.
        destruct (decide (x = n)) as [->|E].
        -- rewrite filter_cons_True by reflexivity.
           destruct (decide _) as [_|Hn]; [reflexivity|contradiction].
        -- rewrite filter_cons_False by exact E. reflexivity.
    + assert (~ is_Some (ifs0 !! x)) as Hx0.
      { intros H0. apply Hx in H0. destruct H0; congruence. }
      apply IH in Hf; [|exact Hc].
      destruct Hf as (Hc' & Hseen & Hsent). split; [exact Hc'|]. split.
      * intros n. rewrite Hseen, elem_of_cons.
        split; [intros [?|[? ?]] | intros [?|[[->|?] ?]]]; auto.
        contradiction.
      * intros n. rewrite Hsent. f_equal.
        destruct (decide (x = n)) as [->|E].
        -- destruct (decide _) as [Hn|_]; [contradiction|reflexivity].
        -- rewrite filter_cons_False by exact E. reflexivity.
Qed.

Lemma reset_loop_spec (cfg : NodePtr) (seen : gset string)
    (ifs0 : gmap string World) (kvs : list (string * World)) :
  NoDup kvs.*1 ->
  forall ifs sent ifs' sent',
    consistent ifs0 ifs sent ->
    foldl (reset_loop cfg seen) (ifs, sent) kvs = (ifs', sent') ->
    consistent ifs0 ifs' sent' /\
    (forall n, addressed n sent' =
               addressed n sent ++
               if decide (n ∈ kvs.*1 /\ n ∉ seen)
               then [(n, mkMessage Machine.Reset cfg)]
               else []).
Proof.
  induction kvs as [|[k w] kvs IH]; intros Hnd ifs sent ifs' sent' Hc Hf.
  - cbn in Hf. injection Hf as <- <-. split; [exact Hc|].
    intros n. destruct (decide _) as [[Hin _]|_].
    + cbn in Hin. apply elem_of_nil in Hin. contradiction.
    + rewrite app_nil_r. reflexivity.
  - cbn in Hnd. apply NoDup_cons in Hnd as [Hk Hnd].
    cbn [foldl] in Hf. unfold reset_loop at 2 in Hf. cbn [fst] in Hf.
    destruct (decide (k ∈ seen)) as [Hs|Hs].
    + apply (IH Hnd) in Hf; [|exact Hc].
      destruct Hf as [Hc' Hsent]. split; [exact Hc'|].
      intros n. rewrite Hsent. f_equal. rewrite fmap_cons. cbn [fst].
      apply decide_ext. rewrite elem_of_cons.
      split; [intros [? ?]; auto|].
      intros [[->|?] ?]; [contradiction|auto].
    + apply (IH Hnd) in Hf; [|apply consistent_deliver, Hc].
      destruct Hf as [Hc' Hsent]. split; [exact Hc'|].
      intros n. rewrite Hsent, addressed_snoc, <- app_assoc. f_equal.
      rewrite fmap_cons. cbn [fst].
      destruct (decide (k = n)) as [->|E].
      * rewrite decide_False by (intros [? _]; contradiction).
        rewrite decide_True; [reflexivity|].
        split; [apply elem_of_cons; auto | exact Hs].
      * cbn [app]. apply decide_ext. rewrite elem_of_cons.
        split; [intros [? ?]; auto|].
        intros [[->|?] ?]; [contradiction|auto].
Qed.

Lemma not_listed_occurrences (name : string) (l : list string) :
  name ∉ l -> filter (fun n => n = name) l = [].
Proof.
  intros Hn. apply elem_of_nil_inv. intros x Hx.
  apply list_elem_of_filter in Hx as [-> Hx]. contradiction.
Qed.

Lemma map_to_list_keys (ifs : gmap string World) (k : string) :
  k ∈ (map_to_list ifs).*1 <-> is_Some (ifs !! k).
Proof.
  rewrite list_elem_of_fmap. split.
  - intros ([k' w] & -> & Hin). apply elem_of_map_to_list in Hin. eauto.
  - intros [w Hw]. exists (k, w). split; [reflexivity|].
    apply elem_of_map_to_list. exact Hw.
Qed.

(** C6 (as amended).  [Apply] stores the tree; a managed machine whose name
    is listed in the tree is sent [Apply] of the full tree once for each time
    the name is listed, hence exactly once when it is listed once, and
    nothing else; a managed machine that is not listed is sent exactly one
    [Reset] of the full tree; nothing is addressed to a name that is not
    managed; and each machine is left as these deliveries make it. *)
Theorem Apply_deliveries (cfg : NodePtr) (mgr : IntfManager) :
  let mgr' := (Manager.Apply cfg mgr).1 in
  let sent := (Manager.Apply cfg mgr).2 in
  config mgr' = cfg /\
  consistent (interfaces mgr) (interfaces mgr') sent /\
  forall name,
    (interfaces mgr !! name = None -> addressed name sent = []) /\
    (is_Some (interfaces mgr !! name) ->
     name ∈ listConfigInterfaces cfg ->
     addressed name sent =
     replicate (occurrences name cfg) (name, mkMessage Machine.Apply cfg)) /\
    (is_Some (interfaces mgr !! name) -> occurrences name cfg = 1 ->
     addressed name sent = [(name, mkMessage Machine.Apply cfg)]) /\
    (is_Some (interfaces mgr !! name) ->
     name ∉ listConfigInterfaces cfg ->
     addressed name sent = [(name, mkMessage Machine.Reset cfg)]).
Proof.
  unfold Manager.Apply.
  destruct (foldl (apply_loop cfg) _ _) as [[ifs1 seen1] sent1] eqn:H1.
  destruct (foldl (reset_loop cfg seen1) _ _) as [ifs2 sent2] eqn:H2.
  cbn [fst snd].
  apply apply_loop_spec with (ifs0 := interfaces mgr) in H1;
    [|apply consistent_refl].
  destruct H1 as (Hc1 & Hseen & Hsent1).
  apply reset_loop_spec with (ifs0 := interfaces mgr) in H2;
    [|apply NoDup_fst_map_to_list|exact Hc1].
  destruct H2 as (Hc2 & Hsent2).
  split; [reflexivity|]. split; [exact Hc2|].
  assert (forall n, n ∈ (map_to_list ifs1).*1 <->
                    is_Some (interfaces mgr !! n)) as Hkeys.
  { intros n. rewrite map_to_list_keys.
    apply (consistent_managed _ _ _ n Hc1). }
  assert (forall n, n ∈ listConfigInterfaces cfg ->
            is_Some (interfaces mgr !! n) ->
            addressed n sent2 =
            replicate (occurrences n cfg) (n, mkMessage Machine.Apply cfg))
    as Hlisted.
  { intros n Hin Hm. rewrite Hsent2, Hsent1. cbn.
    destruct (decide (is_Some _)) as [_|?]; [|contradiction].
    destruct (decide (_ /\ _)) as [[_ Hns]|_].
    - exfalso. apply Hns, Hseen. right. auto.
    - rewrite app_nil_r. reflexivity. }
  intros name. repeat split.
  - intros Hnone. rewrite Hsent2, Hsent1. cbn.
    destruct (decide (is_Some _)) as [[w Hw]|_]; [congruence|].
    destruct (decide (_ /\ _)) as [[Hin _]|_]; [|reflexivity].
    apply Hkeys in Hin as [w Hw]. congruence.
  - intros Hm Hin. apply Hlisted; assumption.
  - intros Hm Hocc.
    assert (name ∈ listConfigInterfaces cfg) as Hin.
    { destruct (decide (name ∈ listConfigInterfaces cfg)) as [?|Hn];
        [assumption|].
      unfold occurrences in Hocc.
      rewrite not_listed_occurrences in Hocc by exact Hn. discriminate. }
    rewrite (Hlisted name Hin Hm), Hocc. reflexivity.
  - intros Hm Hn. rewrite Hsent2, Hsent1. cbn.
    destruct (decide (is_Some _)) as [_|?]; [|contradiction].
    rewrite not_listed_occurrences by exact Hn. cbn.
    destruct (decide (_ /\ _)) as [_|Hno]; [reflexivity|].
    exfalso. apply Hno. split; [apply Hkeys, Hm|].
    intros Hs. apply Hseen in Hs as [Hs|[Hs _]]; [|contradiction].
    apply elem_of_empty in Hs. exact Hs.
Qed.

Lemma Apply_deliveries_witness :
  Manager.addressed "dp0" (Manager.Apply Examples.tree_A Examples.mgr_two).2 =
  [("dp0", mkMessage Machine.Apply Examples.tree_A)] /\
  Manager.addressed "dp1" (Manager.Apply Examples.tree_A Examples.mgr_two).2 =
  [("dp1", mkMessage Machine.Reset Examples.tree_A)].
Proof.
  destruct (Apply_deliveries Examples.tree_A Examples.mgr_two)
    as (_ & _ & H).
  split.
  - destruct (H "dp0") as (_ & _ & H1 & _).
    apply H1; [vm_compute; eauto | reflexivity].
  - destruct (H "dp1") as (_ & _ & _ & H4).
    apply H4; [vm_compute; eauto |].
    change (listConfigInterfaces Examples.tree_A) with ["dp0"].
    intros Hin. apply elem_of_cons in Hin as [Hin|Hin]; [discriminate|].
    apply elem_of_nil in Hin. exact Hin.
Defined.

(** C6, the claim as written fails: a managed machine whose name is listed
    under two interface types is sent [Apply] twice. *)
Lemma Apply_twice_counterexample :
  is_Some (interfaces Examples.mgr_dp0 !! "dp0") /\
  listConfigInterfaces Examples.tree_twice = ["dp0"; "dp0"] /\
  addressed "dp0" (Manager.Apply Examples.tree_twice Examples.mgr_dp0).2 =
  [("dp0", mkMessage Machine.Apply Examples.tree_twice);
   ("dp0", mkMessage Machine.Apply Examples.tree_twice)].
Proof.
  split; [vm_compute; eauto|]. split; vm_compute; reflexivity.
Qed.

(** C5 (as amended).  [Register] does nothing for a name that is managed.
    Otherwise it creates a machine (Unplugged, candidate and running nil),
    records it under the name, and sends it [Apply] of the manager's tree
    whether or not one is known (nil when none is), then [Plug] when the
    kernel has the interface; the recorded machine is the new one after
    these deliveries. *)
Theorem Register_deliveries (present : bool) (name : string)
    (mgr : IntfManager) :
  (is_Some (interfaces mgr !! name) ->
   Register present name mgr = (mgr, [])) /\
  (interfaces mgr !! name = None ->
   let new := NewIntfMachine name in
   let mgr' := (Register present name mgr).1 in
   let sent := (Register present name mgr).2 in
   curState (mach new) = Unplugged /\
   candidate (mach new) = nil /\ running (mach new) = nil /\
   sent = (name, mkMessage Machine.Apply (config mgr)) ::
          (if present then [(name, mkMessage Machine.Plug nil)] else []) /\
   config mgr' = config mgr /\
   interfaces mgr' = <[name := replay sent new]> (interfaces mgr)).
Proof.
  unfold Register. split.
  - intros [w Hw]. rewrite Hw. reflexivity.
  - intros Hnone. rewrite Hnone.
    repeat (split; [reflexivity|]).
    destruct present; cbn [fst snd].
    + split; [reflexivity|]. split; [reflexivity|].
      unfold deliver. rewrite !alter_insert_eq. reflexivity.
    + split; [reflexivity|]. split; [reflexivity|].
      unfold deliver. rewrite !alter_insert_eq. reflexivity.
Qed.

Lemma Register_deliveries_witness :
  (Register true "dp0" NewIntfManager).2 =
  [("dp0", mkMessage Machine.Apply nil); ("dp0", mkMessage Machine.Plug nil)]
  /\ Register false "dp0" Examples.mgr_dp0 = (Examples.mgr_dp0, []).
Proof.
  split.
  - destruct (Register_deliveries true "dp0" NewIntfManager) as [_ H].
    apply H. reflexivity.
  - destruct (Register_deliveries false "dp0" Examples.mgr_dp0) as [H _].
    apply H. vm_compute. eauto.
Defined.

(** C5, the claim as written fails: a manager that knows no tree still
    sends [Apply] to the machine it registers. *)
Lemma Register_Apply_without_tree :
  config NewIntfManager = nil /\
  (Register false "dp0" NewIntfManager).2 =
  [("dp0", mkMessage Machine.Apply nil)].
Proof. split; reflexivity. Qed.

End ManagerFacts.

(** ** The session registry *)
Section SessionsFacts.

(** C9.  [New] fails exactly when the identifier is already registered, and
    then leaves the registry as it is; otherwise it registers, under the
    identifier, a session made of the given candidate, running and
    schema. *)
Theorem Sessions_New_spec (sid : string) (c r : option Node)
    (sch : Sessions.SchemaNode) (s : gmap string Sessions.Session) :
  let res := Sessions.New sid c r sch s in
  ((exists e, res.1 = inr e) <-> is_Some (s !! sid)) /\
  (is_Some (s !! sid) ->
   res = (inr (mkError OperationFailed "session exists" [] ""), s)) /\
  (s !! sid = None ->
   res = (inl (Sessions.mkSession c r sch),
          <[sid := Sessions.mkSession c r sch]> s)).
Proof.
  unfold Sessions.New. destruct (s !! sid) as [old|] eqn:Hs; cbn.
  - split; [|split]; [split; eauto | reflexivity | discriminate].
  - split; [|split].
    + split; [intros [e He]; discriminate | intros [x Hx]; discriminate].
    + intros [x Hx]; discriminate.
    + reflexivity.
Qed.

Lemma Sessions_New_spec_witness :
  Sessions.New "s1" None None 1 Examples.one_session =
  (inr (mkError OperationFailed "session exists" [] ""), Examples.one_session)
  /\
  Sessions.New "s2" None None 1 Examples.one_session =
  (inl (Sessions.mkSession None None 1),
   <["s2" := Sessions.mkSession None None 1]> Examples.one_session).
Proof.
  destruct (Sessions_New_spec "s1" None None 1 Examples.one_session)
    as (_ & H1 & _).
  destruct (Sessions_New_spec "s2" None None 1 Examples.one_session)
    as (_ & _ & H2).
  split; [apply H1; vm_compute; eauto | apply H2; reflexivity].
Defined.

End SessionsFacts.

(** ** The dispatcher *)
Section DispatcherFacts.

Import Machine Manager Dispatcher.

Context `{codec : Codec}.


(** C8.  For a node that exists in the comparison of a session's two trees,
    [NodeGetStatus] returns without error the status picked by this order:
    deleted gives DELETED; else a leaf value under a leaf gives CHANGED; else
    added gives ADDED; else changed gives CHANGED; else a leaf value under a
    changed leaf-list gives CHANGED; else UNCHANGED. *)
Theorem NodeGetStatus_priority (db : DB) (sid path : string) (c : Core)
    (session : Sessions.Session) (dn : diffNode) (parent : option diffNode) :
  Sessions.Get sid (sessionmgr c) = Some session ->
  diffDescendant None
    (diff_NewNode (Sessions.candidate session) (Sessions.running session)
                  (SchemaTree c))
    (Makepath path) = Some (dn, parent) ->
  exists st,
    NodeGetStatus db sid path c = Return st /\
    (Deleted dn = true -> st = DELETED) /\
    (Deleted dn = false -> leafValueOfLeaf dn parent = true ->
     st = CHANGED) /\
    (Deleted dn = false -> leafValueOfLeaf dn parent = false ->
     Added dn = true -> st = ADDED) /\
    (Deleted dn = false -> leafValueOfLeaf dn parent = false ->
     Added dn = false -> Changed dn = true -> st = CHANGED) /\
    (Deleted dn = false -> leafValueOfLeaf dn parent = false ->
     Added dn = false -> Changed dn = false ->
     leafValueOfChangedLeafList dn parent = true -> st = CHANGED) /\
    (Deleted dn = false -> leafValueOfLeaf dn parent = false ->
     Added dn = false -> Changed dn = false ->
     leafValueOfChangedLeafList dn parent = false -> st = UNCHANGED).
Proof.
  intros Hget Hdesc. unfold NodeGetStatus. rewrite Hget, Hdesc.
  eexists. split; [reflexivity|].
  unfold status_switch, leafValueOfLeaf, leafValueOfChangedLeafList.
  destruct (Deleted dn), (isLeafValue (Schema dn)), (Added dn), (Changed dn);
    (destruct parent as [p|];
     [destruct (isLeaf (Schema p)), (isLeafList (Schema p)), (Changed p)|]);
    cbn; repeat split; intros; congruence.
Qed.

End DispatcherFacts.

Section DispatcherWitnesses.

Import Machine Manager Dispatcher.

Lemma NodeGetStatus_priority_witness :
  @NodeGetStatus Examples.codec RUNNING "s1"
    "/interfaces/dataplane/dp0/address/10.0.0.1" Examples.core_dp0 =
  Return CHANGED.
Proof.
  destruct (@NodeGetStatus_priority Examples.codec RUNNING "s1"
              "/interfaces/dataplane/dp0/address/10.0.0.1" Examples.core_dp0
              _ _ _ eq_refl eq_refl) as (st & -> & _ & _ & _ & _ & H & _).
  f_equal. apply H; reflexivity.
Defined.

End DispatcherWitnesses.

(** ** More on the state machine *)
Section MachineExtFacts.

Import Machine MachineExt.

Lemma ptr_eqb_refl (p : NodePtr) : ptr_eqb p p = true.
Proof. destruct p; cbn; [apply bool_decide_eq_true; reflexivity | reflexivity]. Qed.

Ltac settle :=
  first
    [ by repeat split
    | split; [reflexivity|];
      first [ by (exists false; split; [reflexivity | discriminate])
            | by (eexists _, _, _; split; reflexivity) 
            | by (eexists; split; [reflexivity | auto]) ]
    | by (repeat split; auto) ].

Lemma step_settled (l : Label) (w w' : World) :
  settled w -> step l w = Some w' -> settled w'.
Proof.
  destruct w as [[n s c r p k dn] gs em]. unfold settled; cbn.
  intros H Hstep. destruct s.
  - destruct H as (-> & -> & -> & -> & ->).
    destruct l as [[t d] | i ch | i]; cbn in Hstep; [|discriminate..].
    destruct t; cbn in Hstep; try discriminate; injection Hstep as <-;
      cbv -[ptr_eqb]; settle.
  - destruct H as (-> & He & -> & -> & ->).
    destruct l as [[t d] | i ch | i]; cbn in Hstep; [|discriminate..].
    destruct t; cbn in Hstep; try discriminate; injection Hstep as <-;
      cbv -[ptr_eqb]; settle.
  - destruct H as (-> & c0 & r0 & s0 & -> & ->).
    destruct l as [[t d] | [|i] ch | [|i]]; cbn in Hstep.
    + destruct t; cbn in Hstep; try discriminate; injection Hstep as <-;
      cbv -[ptr_eqb]; settle.
    + destruct s0; [discriminate|]. injection Hstep as <-.
      cbv -[ptr_eqb applyIntf]. destruct (applyIntf _ _ _ _); settle.
    + discriminate.
    + destruct s0; [|discriminate]. injection Hstep as <-.
      destruct k, p; cbv -[ptr_eqb]; try settle.
      destruct (ptr_eqb c0 c) eqn:E; cbv -[ptr_eqb]; settle.
    + discriminate.
  - destruct H as (-> & s0 & -> & Hr).
    destruct l as [[t d] | [|i] ch | [|i]]; cbn in Hstep.
    + destruct t; cbn in Hstep; try discriminate; injection Hstep as <-;
      cbv -[ptr_eqb]; settle.
    + destruct s0; [discriminate|]. injection Hstep as <-.
      cbv -[ptr_eqb applyIntf]. destruct (applyIntf _ _ _ _); settle.
    + discriminate.
    + destruct s0; [|discriminate]. injection Hstep as <-.
      rewrite (Hr eq_refl).
      destruct k, p; cbv -[ptr_eqb]; settle.
    + discriminate.
  - destruct H as (-> & s0 & -> & Hr).
    destruct l as [[t d] | [|i] ch | [|i]]; cbn in Hstep.
    + destruct t; cbn in Hstep; try discriminate; injection Hstep as <-;
      cbv -[ptr_eqb]; settle.
    + destruct s0; [discriminate|]. injection Hstep as <-.
      cbv -[ptr_eqb applyIntf]. destruct (applyIntf _ _ _ _); settle.
    + discriminate.
    + destruct s0; [|discriminate]. injection Hstep as <-.
      rewrite (Hr eq_refl). cbv -[ptr_eqb]; settle.
    + discriminate.
  - destruct H as (-> & -> & ->).
    destruct l as [[t d] | i ch | i]; cbn in Hstep; [|discriminate..].
    destruct t; cbn in Hstep; try discriminate; injection Hstep as <-;
      cbv -[ptr_eqb]; settle.
Qed.

Lemma reachable_settled (w : World) : reachable w -> settled w.
Proof.
  induction 1 as [name | l w w' _ IH Hstep].
  - cbv. auto.
  - eapply step_settled; eauto.
Qed.

(** X1.  What the state tells of a reachable machine.  In Plugged the running and
    candidate pointers are equal, the device is marked plugged, no kill is
    pending and no commit is in flight.  In Unplugged nothing is applied
    (running is nil), the device is marked unplugged and nothing is in
    flight.  In Shutdown running is nil and no goroutine is left. *)
Theorem state_meaning (w : World) :
  reachable w ->
  (curState (mach w) = Plugged ->
   ptr_eqb (running (mach w)) (candidate (mach w)) = true /\
   plugged (mach w) = true /\ killReq (mach w) = false /\
   goroutines w = []) /\
  (curState (mach w) = Unplugged ->
   running (mach w) = nil /\ plugged (mach w) = false /\
   killReq (mach w) = false /\ goroutines w = []) /\
  (curState (mach w) = Shutdown ->
   running (mach w) = nil /\ goroutines w = []).
Proof.
  intros Hr. apply reachable_settled in Hr. unfold settled in Hr.
  split; [|split]; intros Hs; rewrite Hs in Hr; tauto.
Qed.

Lemma state_meaning_witness :
  ptr_eqb (running (mach Examples.plugged_world))
          (candidate (mach Examples.plugged_world)) = true.
Proof.
  assert (reachable Examples.plugged_world) as Hr.
  { apply (run_labels_reachable Examples.to_plugged (NewIntfMachine "dp0"));
      [apply reachable_new | reflexivity]. }
  destruct (state_meaning Examples.plugged_world Hr) as (H & _).
  apply H. reflexivity.
Defined.

(** X2.  Plug on an Unplugged machine, followed by the completion of the commit it
    starts and by its Done, ends in Plugged with running equal to the
    candidate that was staged, whatever the commit reported. *)
Theorem plug_settles (w : World) (ch : bool) :
  reachable w -> curState (mach w) = Unplugged ->
  exists w',
    Examples.run_labels
      [Deliver (mkMessage Plug nil); Complete 0 ch; SendDone 0] w = Some w' /\
    curState (mach w') = Plugged /\
    running (mach w') = candidate (mach w) /\
    candidate (mach w') = candidate (mach w) /\
    goroutines w' = [].
Proof.
  intros Hr Hs. apply reachable_settled in Hr. unfold settled in Hr.
  rewrite Hs in Hr. destruct w as [[n s c r p k dn] gs em]. cbn in *.
  destruct Hr as (-> & -> & -> & -> & ->). subst s.
  cbv -[ptr_eqb applyIntf]. destruct (applyIntf _ _ _ _);
    rewrite ptr_eqb_refl; eexists; repeat split.
Qed.

(** X3.  Unplug on a Plugged machine, followed by the completion of the unapply
    and by its Done, ends in Unplugged with running nil; the candidate is
    kept for the next Plug. *)
Theorem unplug_settles (w : World) (ch : bool) :
  reachable w -> curState (mach w) = Plugged ->
  exists w',
    Examples.run_labels
      [Deliver (mkMessage Unplug nil); Complete 0 ch; SendDone 0] w
      = Some w' /\
    curState (mach w') = Unplugged /\
    running (mach w') = nil /\
    candidate (mach w') = candidate (mach w) /\
    goroutines w' = [].
Proof.
  intros Hr Hs. apply reachable_settled in Hr. unfold settled in Hr.
  rewrite Hs in Hr. destruct w as [[n s c r p k dn] gs em]. cbn in *.
  destruct Hr as (-> & _ & -> & -> & ->). subst s.
  cbv -[ptr_eqb applyIntf]. destruct (applyIntf _ _ _ _);
    eexists; repeat split.
Qed.

(** X4.  Apply or Reset on a Plugged machine, followed by the completion of the
    commit and by its Done, ends in Plugged with running and candidate both
    equal to the tree that was sent. *)
Theorem apply_settles (w : World) (msg : message) (ch : bool) :
  reachable w -> curState (mach w) = Plugged -> staging msg ->
  exists w',
    Examples.run_labels [Deliver msg; Complete 0 ch; SendDone 0] w
      = Some w' /\
    curState (mach w') = Plugged /\
    running (mach w') = mdata msg /\
    candidate (mach w') = mdata msg /\
    goroutines w' = [].
Proof.
  intros Hr Hs Hm. apply reachable_settled in Hr. unfold settled in Hr.
  rewrite Hs in Hr. destruct w as [[n s c r p k dn] gs em]. cbn in *.
  destruct Hr as (-> & _ & -> & -> & ->). subst s.
  destruct msg as [t d]. destruct Hm as [Ht | Ht]; cbn in Ht; subst t;
    cbv -[ptr_eqb applyIntf]; destruct (applyIntf _ _ _ _);
    rewrite ptr_eqb_refl; eexists; repeat split.
Qed.

(** X5.  Kill is always honoured: from any reachable world, after Kill at most four
    steps of the machine's own goroutines, with no further message from
    outside, bring the machine to Shutdown, with running nil and no
    goroutine left. *)
Theorem kill_reaches_shutdown (w : World) :
  reachable w ->
  exists ls w',
    length ls <= 4 /\ Forall internal ls /\
    Examples.run_labels (Deliver (mkMessage Kill nil) :: ls) w = Some w' /\
    curState (mach w') = Shutdown /\
    running (mach w') = nil /\ goroutines w' = [].
Proof.
  intros Hr. apply reachable_settled in Hr. unfold settled in Hr.
  destruct w as [[n s c r p k dn] gs em]. cbn in *.
  assert (forall ls, Forall internal ls -> length ls <= 4 ->
            (exists w', Examples.run_labels
                          (Deliver (mkMessage Kill nil) :: ls)
                          (mkWorld (mkMachine n s c r p k dn) gs em) = Some w' /\
                        curState (mach w') = Shutdown /\
                        running (mach w') = nil /\ goroutines w' = []) ->
            exists ls w',
              length ls <= 4 /\ Forall internal ls /\
              Examples.run_labels (Deliver (mkMessage Kill nil) :: ls)
                (mkWorld (mkMachine n s c r p k dn) gs em) = Some w' /\
              curState (mach w') = Shutdown /\
              running (mach w') = nil /\ goroutines w' = []) as Hpack.
  { intros ls Hf Hl (w' & H). exists ls, w'. auto. }
  destruct s.
  - destruct Hr as (-> & -> & -> & -> & ->).
    apply (Hpack []); [constructor | cbn; lia |].
    eexists. cbv -[ptr_eqb]. repeat split.
  - destruct Hr as (-> & _ & -> & -> & ->).
    apply (Hpack [Complete 0 true; SendDone 0]);
      [repeat constructor | cbn; lia |].
    cbv -[ptr_eqb applyIntf]. destruct (applyIntf _ _ _ _);
      eexists; repeat split.
  - destruct Hr as (-> & c0 & r0 & [|] & -> & ->).
    + apply (Hpack [SendDone 0; Complete 0 true; SendDone 0]);
        [repeat constructor | cbn; lia |].
      cbv -[ptr_eqb applyIntf]. destruct (applyIntf _ _ _ _);
        eexists; repeat split.
    + apply (Hpack [Complete 0 true; SendDone 0; Complete 0 true; SendDone 0]);
        [repeat constructor | cbn; lia |].
      cbv -[ptr_eqb applyIntf]. repeat destruct (applyIntf _ _ _ _);
        eexists; repeat split.
  - destruct Hr as (-> & [|] & -> & Hrun).
    + specialize (Hrun eq_refl); subst r.
      apply (Hpack [SendDone 0; Complete 0 true; SendDone 0]);
        [repeat constructor | cbn; lia |].
      cbv -[ptr_eqb applyIntf]. destruct (applyIntf _ _ _ _);
        eexists; repeat split.
    + apply (Hpack [Complete 0 true; SendDone 0; Complete 0 true; SendDone 0]);
        [repeat constructor | cbn; lia |].
      cbv -[ptr_eqb applyIntf]. repeat destruct (applyIntf _ _ _ _);
        eexists; repeat split.
  - destruct Hr as (-> & [|] & -> & Hrun).
    + specialize (Hrun eq_refl); subst r.
      apply (Hpack [SendDone 0]); [repeat constructor | cbn; lia |].
      cbv -[ptr_eqb applyIntf]. eexists; repeat split.
    + apply (Hpack [Complete 0 true; SendDone 0]);
        [repeat constructor | cbn; lia |].
      cbv -[ptr_eqb applyIntf]. repeat destruct (applyIntf _ _ _ _);
        eexists; repeat split.
  - destruct Hr as (-> & -> & ->).
    apply (Hpack []); [constructor | cbn; lia |].
    eexists. cbv -[ptr_eqb]. repeat split.
Qed.

Lemma staging_busy (msg : message) (w : World) :
  done (mach w) = false ->
  curState (mach w) = Applying \/ curState (mach w) = Unapplying ->
  staging msg ->
  step (Deliver msg) w = Some (with_machine (with_candidate (mdata msg)) w).
Proof.
  destruct w as [[n s c r p k dn] gs em], msg as [t d]; cbn.
  intros -> Hs Ht.
  destruct Hs as [-> | ->], Ht as [Ht | Ht]; cbn in Ht; subst t; reflexivity.
Qed.

(** X6.  While a commit is in flight (Applying or Unapplying), any burst of Apply
    and Reset messages is taken at once and leaves the world as it was but for
    the candidate, which is the tree of the last message; no commit is
    started. *)
Theorem burst_stages (w : World) (ms : list message) :
  reachable w ->
  curState (mach w) = Applying \/ curState (mach w) = Unapplying ->
  Forall staging ms ->
  Examples.run_labels (Deliver <$> ms) w =
  Some (match last ms with
        | Some m => with_machine (with_candidate (mdata m)) w
        | None => w
        end).
Proof.
  intros Hr Hs Hms.
  assert (done (mach w) = false) as Hd.
  { apply reachable_settled in Hr. unfold settled in Hr.
    destruct Hs as [Hs | Hs]; rewrite Hs in Hr; tauto. }
  clear Hr. revert w Hs Hd.
  induction ms as [|m ms IH]; intros w Hs Hd; [reflexivity|].
  apply Forall_cons in Hms as [Hm Hms].
  cbn [fmap list_fmap Examples.run_labels].
  rewrite (staging_busy m w Hd Hs Hm).
  rewrite (IH Hms); [| exact Hs | exact Hd].
  f_equal. rewrite last_cons. destruct (last ms); reflexivity.
Qed.

(** X10.  [IsShutdown] answers true exactly when the machine has reached Shutdown,
    and never changes anything. *)
Theorem IsShutdown_reports (w : World) :
  reachable w ->
  IsShutdown w = (bool_decide (curState (mach w) = Shutdown), w).
Proof.
  intros Hr. pose proof (reachable_invariant w Hr) as [_ Hdn].
  unfold IsShutdown, mbind, M_bind.
  destruct (done (mach w)) eqn:Hd.
  - rewrite send_closed by exact Hd. cbn.
    rewrite bool_decide_eq_true_2 by (apply Hdn; reflexivity). reflexivity.
  - rewrite send_open by exact Hd.
    rewrite bool_decide_eq_false_2.
    2:{ intros Hs. apply Hdn in Hs. congruence. }
    destruct w as [[n s c r p k dn] gs em]. destruct s; reflexivity.
Qed.

(** X9.  A message for which the table has no transition leaves the world as it is.
    That covers Unapply and the shutdown probe in every state, everything but
    Done in Shuttingdown, a repeated Plug in Plugged or Applying, and Unplug
    in Unplugged. *)
Theorem unhandled_ignored (w : World) (msg : message) :
  (transitionTable (curState (mach w)) (typ msg) = None ->
   (send msg w).2 = w) /\
  (typ msg = Unapply \/ typ msg = Machine.IsShutdown ->
   (send msg w).2 = w) /\
  (curState (mach w) = Shuttingdown -> typ msg <> Done ->
   (send msg w).2 = w) /\
  (curState (mach w) = Plugged \/ curState (mach w) = Applying ->
   typ msg = Plug -> (send msg w).2 = w) /\
  (curState (mach w) = Unplugged -> typ msg = Unplug -> (send msg w).2 = w).
Proof.
  assert (transitionTable (curState (mach w)) (typ msg) = None ->
          (send msg w).2 = w) as Hnone.
  { destruct w as [[n s c r p k dn] gs em], msg as [t d]; cbn.
    intros Hn. destruct dn; [reflexivity|].
    destruct s, t; cbn in Hn; try discriminate; reflexivity. }
  split; [exact Hnone|].
  repeat split; intros; apply Hnone;
    destruct (curState (mach w)), (typ msg); intuition congruence.
Qed.

Lemma unhandled_ignored_witness :
  (send (mkMessage Plug nil) Examples.plugged_world).2 =
  Examples.plugged_world.
Proof.
  destruct (unhandled_ignored Examples.plugged_world (mkMessage Plug nil))
    as (_ & _ & _ & H & _).
  apply H; [left|]; reflexivity.
Defined.

(** X8.  Done in Unapplying: with a kill pending the machine starts one more
    unapply and goes to Shuttingdown; otherwise, when the device is not
    plugged, it goes to Unplugged and starts nothing; otherwise it starts the
    commit of the candidate against running and goes to Applying. *)
Theorem doneUnapplying_cases (w : World) (d : NodePtr) :
  curState (mach w) = Unapplying ->
  let w' := (run_iter (mkMessage Done d) w).2 in
  (killReq (mach w) = true ->
     w' = started unapplyTask Shuttingdown w) /\
  (killReq (mach w) = false -> plugged (mach w) = false ->
     w' = with_machine (with_state Unplugged) w) /\
  (killReq (mach w) = false -> plugged (mach w) = true ->
     w' = started (applyTask (candidate (mach w)) (running (mach w)))
                  Applying w).
Proof.
  destruct w as [[n s c r p k dn] gs em]; cbn. intros ->.
  split; [|split]; intros; subst; reflexivity.
Qed.

Lemma step_emitted (l : Label) (w w' : World) :
  step l w = Some w' ->
  ifname (mach w') = ifname (mach w) /\
  exists extra, emitted w' = emitted w ++ extra /\
                Forall (fun n => note_name n = ifname (mach w)) extra.
Proof.
  destruct w as [[n s c r p k dn] gs em].
  assert (forall w1 : World, ifname (mach w1) = n ->
            (emitted w1 = em \/ exists x, emitted w1 = em ++ [x] /\ note_name x = n) ->
            ifname (mach w1) = n /\
            exists extra, emitted w1 = em ++ extra /\
                          Forall (fun x => note_name x = n) extra) as Hpack.
  { intros w1 Hn [He | (x & He & Hx)]; (split; [exact Hn|]).
    - exists []. rewrite app_nil_r. auto.
    - exists [x]. auto. }
  intros Hstep. cbn [mach ifname emitted].
  assert (forall w1 : World,
            Some w1 = Some w' -> ifname (mach w1) = n ->
            (emitted w1 = em \/
             exists x, emitted w1 = em ++ [x] /\ note_name x = n) ->
            ifname (mach w') = n /\
            exists extra, emitted w' = em ++ extra /\
                          Forall (fun x => note_name x = n) extra) as Hgo.
  { intros w1 E. injection E as <-. apply Hpack. }
  clear Hpack.
  destruct l as [[t d] | i ch | i]; cbn in Hstep.
  - destruct (external t); [|discriminate].
    destruct dn; [eapply Hgo; [exact Hstep|reflexivity|left; reflexivity]|].
    destruct s, t, k, p; (eapply Hgo; [exact Hstep|..]);
      cbv -[ptr_eqb app]; try destruct (ptr_eqb r c); eauto.
  - destruct (gs !! i) as [[[tc tr|] [|]]|]; try discriminate;
      (eapply Hgo; [exact Hstep|..]);
      cbv -[applyIntf app insert];
      destruct (applyIntf _ _ _ _); eauto.
  - destruct (gs !! i) as [[tk [|]]|]; try discriminate.
    destruct dn; [eapply Hgo; [exact Hstep|reflexivity|left; reflexivity]|].
    destruct s, k, p; (eapply Hgo; [exact Hstep|..]);
      cbv -[ptr_eqb app delete]; try destruct (ptr_eqb r c); eauto.
Qed.

(** X11.  Every notification a machine has emitted names the machine's own
    interface. *)
Theorem emitted_names (w : World) :
  reachable w ->
  Forall (fun n => note_name n = ifname (mach w)) (emitted w).
Proof.
  induction 1 as [name | l w w' _ IH Hstep]; [constructor|].
  apply step_emitted in Hstep as (Hn & extra & -> & Hx).
  rewrite Hn. apply Forall_app. auto.
Qed.

Lemma run_labels_app (l1 l2 : list Label) (w : World) :
  Examples.run_labels (l1 ++ l2) w =
  Examples.run_labels l1 w ≫= Examples.run_labels l2.
Proof.
  revert w. induction l1 as [|l l1 IH]; intros w; [reflexivity|].
  cbn. destruct (step l w); [apply IH | reflexivity].
Qed.

Lemma burst_busy (w : World) (ms : list message) :
  done (mach w) = false ->
  curState (mach w) = Applying \/ curState (mach w) = Unapplying ->
  Forall staging ms ->
  Examples.run_labels (Deliver <$> ms) w =
  Some (match last ms with
        | Some m => with_machine (with_candidate (mdata m)) w
        | None => w
        end).
Proof.
  intros Hd Hs Hms. revert w Hs Hd.
  induction ms as [|m ms IH]; intros w Hs Hd; [reflexivity|].
  apply Forall_cons in Hms as [Hm Hms].
  cbn [fmap list_fmap Examples.run_labels].
  rewrite (staging_busy m w Hd Hs Hm).
  rewrite (IH Hms); [| exact Hs | exact Hd].
  f_equal. rewrite last_cons. destruct (last ms); reflexivity.
Qed.

(** X7.  Coalescing.  A Plugged machine is sent a tree and then, while that commit
    runs, a burst of further trees.  When the commit returns, one follow-up
    commit is run if the last tree is another pointer than the first, none
    otherwise; the machine ends Plugged with the last tree as candidate and
    as running (the first, pointer-equal, tree when no follow-up ran).  At
    most two commits serve the whole burst. *)
Theorem coalescing (w : World) (m0 ml : message) (ms : list message)
    (ch1 ch2 : bool) :
  reachable w -> curState (mach w) = Plugged ->
  staging m0 -> Forall staging ms -> last ms = Some ml ->
  let same := ptr_eqb (mdata m0) (mdata ml) in
  let follow := if same then [] else [Complete 0 ch2; SendDone 0] in
  exists w',
    Examples.run_labels
      ([Deliver m0] ++ (Deliver <$> ms) ++ [Complete 0 ch1; SendDone 0] ++
       follow) w = Some w' /\
    curState (mach w') = Plugged /\
    candidate (mach w') = mdata ml /\
    running (mach w') = (if same then mdata m0 else mdata ml) /\
    goroutines w' = [].
Proof.
  intros Hr Hs Hm0 Hms Hl. apply reachable_settled in Hr.
  unfold settled in Hr. rewrite Hs in Hr.
  destruct w as [[n s c r p k dn] gs em]. cbn in Hr, Hs.
  intros same follow.
  destruct Hr as (-> & _ & -> & -> & ->). subst s.
  rewrite run_labels_app.
  assert (exists t0 d0, m0 = mkMessage t0 d0 /\ (t0 = Apply \/ t0 = Reset))
    as (t0 & d0 & -> & Ht0).
  { destruct m0 as [t0 d0]. exists t0, d0. split; [reflexivity|exact Hm0]. }
  set (w1 := mkWorld (mkMachine n Applying d0 r true false false)
                     [mkGoroutine (applyTask d0 r) false] em).
  assert (Examples.run_labels [Deliver (mkMessage t0 d0)]
            (mkWorld (mkMachine n Plugged c r true false false) [] em)
          = Some w1) as ->.
  { destruct Ht0 as [-> | ->]; reflexivity. }
  cbn [mbind option_bind]. rewrite run_labels_app.
  rewrite (burst_busy w1 ms eq_refl (or_introl eq_refl) Hms), Hl.
  cbn [mbind option_bind mdata]. destruct ml as [tl dl]. cbn [mdata].
  subst w1. cbv -[ptr_eqb applyIntf].
  destruct (applyIntf n d0 r ch1); destruct (ptr_eqb d0 dl) eqn:E;
    cbv -[ptr_eqb applyIntf]; try destruct (applyIntf n dl d0 ch2);
    rewrite ?ptr_eqb_refl; eexists; repeat split.
Qed.

Lemma plugged_world_reachable : reachable Examples.plugged_world.
Proof.
  apply (run_labels_reachable Examples.to_plugged (NewIntfMachine "dp0"));
    [apply reachable_new | reflexivity].
Qed.

Lemma applying_world_reachable : reachable Examples.applying_world.
Proof.
  apply (run_labels_reachable Examples.to_applying (NewIntfMachine "dp0"));
    [apply reachable_new | reflexivity].
Qed.

Lemma plug_settles_witness :
  exists w',
    Examples.run_labels
      [Deliver (mkMessage Plug nil); Complete 0 true; SendDone 0]
      (NewIntfMachine "dp0") = Some w' /\
    curState (mach w') = Plugged.
Proof.
  destruct (plug_settles (NewIntfMachine "dp0") true (reachable_new "dp0")
              eq_refl) as (w' & H1 & H2 & _).
  exists w'. split; assumption.
Defined.

Lemma unplug_settles_witness :
  exists w',
    Examples.run_labels
      [Deliver (mkMessage Unplug nil); Complete 0 true; SendDone 0]
      Examples.plugged_world = Some w' /\
    curState (mach w') = Unplugged /\ running (mach w') = nil /\
    candidate (mach w') = Examples.tree_A.
Proof.
  destruct (unplug_settles Examples.plugged_world true
              plugged_world_reachable eq_refl) as (w' & H1 & H2 & H3 & H4 & _).
  exists w'. repeat split; assumption.
Defined.

Lemma apply_settles_witness :
  exists w',
    Examples.run_labels
      [Deliver (mkMessage Apply Examples.tree_B); Complete 0 true; SendDone 0]
      Examples.plugged_world = Some w' /\
    curState (mach w') = Plugged /\ running (mach w') = Examples.tree_B.
Proof.
  destruct (apply_settles Examples.plugged_world
              (mkMessage Apply Examples.tree_B) true
              plugged_world_reachable eq_refl (or_introl eq_refl))
    as (w' & H1 & H2 & H3 & _).
  exists w'. repeat split; assumption.
Defined.

Lemma kill_reaches_shutdown_witness :
  exists ls w',
    length ls <= 4 /\
    Examples.run_labels (Deliver (mkMessage Kill nil) :: ls)
                        Examples.applying_world = Some w' /\
    curState (mach w') = Shutdown.
Proof.
  destruct (kill_reaches_shutdown Examples.applying_world
              applying_world_reachable) as (ls & w' & H1 & _ & H2 & H3 & _).
  exists ls, w'. repeat split; assumption.
Defined.

Lemma burst_stages_witness :
  Examples.run_labels
    [Deliver (mkMessage Apply Examples.tree_B);
     Deliver (mkMessage Reset Examples.tree_twice)]
    Examples.applying_world =
  Some (with_machine (with_candidate Examples.tree_twice)
                     Examples.applying_world).
Proof.
  apply (burst_stages Examples.applying_world
           [mkMessage Apply Examples.tree_B;
            mkMessage Reset Examples.tree_twice]
           applying_world_reachable (or_introl eq_refl)).
  apply List.Forall_cons; [left; reflexivity|].
  apply List.Forall_cons; [right; reflexivity|].
  apply List.Forall_nil.
Defined.

Lemma IsShutdown_reports_witness :
  IsShutdown Examples.shutdown_world = (true, Examples.shutdown_world) /\
  IsShutdown Examples.plugged_world = (false, Examples.plugged_world).
Proof.
  split.
  - apply (IsShutdown_reports Examples.shutdown_world).
    apply (run_labels_reachable [Deliver (mkMessage Kill nil)]
             (NewIntfMachine "dp0")); [apply reachable_new | reflexivity].
  - apply (IsShutdown_reports Examples.plugged_world plugged_world_reachable).
Defined.

Lemma doneUnapplying_cases_witness :
  (run_iter (mkMessage Done nil) MoreExamples.unplugging_world).2 =
  with_machine (with_state Unplugged) MoreExamples.unplugging_world.
Proof.
  destruct (doneUnapplying_cases MoreExamples.unplugging_world nil eq_refl)
    as (_ & H & _).
  apply H; reflexivity.
Defined.

Lemma emitted_names_witness :
  Forall (fun n => note_name n = "dp0") (emitted Examples.plugged_world).
Proof.
  apply (emitted_names Examples.plugged_world plugged_world_reachable).
Defined.

Lemma coalescing_witness :
  exists w',
    Examples.run_labels
      ([Deliver (mkMessage Apply Examples.tree_B)] ++
       (Deliver <$> [mkMessage Apply Examples.tree_twice;
                     mkMessage Apply Examples.tree_A]) ++
       [Complete 0 true; SendDone 0] ++ [Complete 0 false; SendDone 0])
      Examples.plugged_world = Some w' /\
    curState (mach w') = Plugged /\
    running (mach w') = Examples.tree_A.
Proof.
  destruct (coalescing Examples.plugged_world
              (mkMessage Apply Examples.tree_B)
              (mkMessage Apply Examples.tree_A)
              [mkMessage Apply Examples.tree_twice;
               mkMessage Apply Examples.tree_A] true false
              plugged_world_reachable eq_refl (or_introl eq_refl))
    as (w' & H1 & H2 & _ & H4 & _).
  - repeat constructor; left; reflexivity.
  - reflexivity.
  - exists w'. repeat split; assumption.
Defined.

End MachineExtFacts.

(** ** Commit roots *)
Section CommitRootFacts.

Import Machine Manager Dispatcher.

Lemma find_name_None (name : string) (l : list Node) :
  List.find (fun c => bool_decide (Name c = name)) l = None <->
  name ∉ map Name l.
Proof.
  induction l as [|x l IH]; cbn.
  - split; [intros _; apply not_elem_of_nil | reflexivity].
  - rewrite not_elem_of_cons. destruct (bool_decide_reflect (Name x = name)).
    + split; [discriminate | intros [Hn _]; congruence].
    + rewrite IH. split; [intros ?; split; congruence | tauto].
Qed.

Lemma find_name_Some (name : string) (l : list Node) (x : Node) :
  List.find (fun c => bool_decide (Name c = name)) l = Some x ->
  Name x = name /\ x ∈ l.
Proof.
  induction l as [|y l IH]; cbn; [discriminate|].
  destruct (bool_decide_reflect (Name y = name)).
  - intros [= <-]. split; [assumption | apply elem_of_cons; auto].
  - intros H. apply IH in H as [? ?]. split; [assumption|].
    apply elem_of_cons; auto.
Qed.

Lemma findInTypes_None (name : string) (types : list Node) :
  findInTypes name types = None <->
  name ∉ concat (map ChildNames types).
Proof.
  induction types as [|ty types IH]; cbn.
  - split; [intros _; apply not_elem_of_nil | reflexivity].
  - rewrite not_elem_of_app.
    destruct (List.find _ (Children ty)) as [intf|] eqn:Hf.
    + apply find_name_Some in Hf as [<- Hin].
      split; [discriminate|]. intros [Hn _]. exfalso. apply Hn.
      unfold ChildNames. apply list_elem_of_fmap. eauto.
    + apply find_name_None in Hf. rewrite IH. tauto.
Qed.

Lemma findInTypes_Some (name : string) (types : list Node) (root : Node) :
  findInTypes name types = Some root ->
  exists ty intf,
    root = mkNode "root" [mkNode "interfaces" [mkNode (Name ty) [intf]]] /\
    Name intf = name /\ ty ∈ types /\ intf ∈ Children ty.
Proof.
  induction types as [|ty types IH]; cbn; [discriminate|].
  destruct (List.find _ (Children ty)) as [intf|] eqn:Hf.
  - intros [= <-]. apply find_name_Some in Hf as [Hn Hin].
    exists ty, intf. repeat split; [assumption | apply elem_of_cons; auto | assumption].
  - intros H. apply IH in H as (ty' & intf & ? & ? & ? & ?).
    exists ty', intf. repeat split; auto. apply elem_of_cons; auto.
Qed.

Lemma findCommitRoot_None (name : string) (tree : NodePtr) :
  findCommitRoot name tree = None <-> name ∉ listConfigInterfaces tree.
Proof.
  unfold findCommitRoot, listConfigInterfaces.
  destruct (deref tree ≫= Child "interfaces") as [intfTree|].
  - apply findInTypes_None.
  - split; [intros _; apply not_elem_of_nil | reflexivity].
Qed.

(** X12.  A commit root that is not nil is a new tree that holds nothing but the
    path root/interfaces/<type>/<name> down to the interface's own node, which
    comes from the given tree and can be reached in the root by that path. *)
Theorem findCommitRoot_shape (name : string) (tree : NodePtr) (root : Node) :
  findCommitRoot name tree = Some root ->
  exists t intfTree ty intf,
    deref tree = Some t /\ Child "interfaces" t = Some intfTree /\
    ty ∈ Children intfTree /\ intf ∈ Children ty /\ Name intf = name /\
    root = mkNode "root" [mkNode "interfaces" [mkNode (Name ty) [intf]]] /\
    descend root ["interfaces"; Name ty; name] = Some intf.
Proof.
  unfold findCommitRoot.
  destruct (deref tree) as [t|] eqn:Ht; cbn; [|discriminate].
  destruct (Child "interfaces" t) as [intfTree|] eqn:Hi; [|discriminate].
  intros H. apply findInTypes_Some in H as (ty & intf & -> & Hn & Hty & Hin).
  exists t, intfTree, ty, intf. repeat split; auto.
  unfold descend, Child. cbn.
  rewrite (bool_decide_eq_true_2 ("interfaces" = "interfaces"))
    by reflexivity. cbn.
  rewrite (bool_decide_eq_true_2 (Name ty = Name ty)) by reflexivity. cbn.
  rewrite (bool_decide_eq_true_2 (Name intf = name)) by exact Hn.
  reflexivity.
Qed.

(** X13.  The commit root of an interface is nil exactly when the tree does not
    list the interface.  For an interface listed in neither tree [applyIntf]
    reports no change, whatever the commit library would say, so nothing is
    committed and nothing notified; for one listed in either tree it reports
    what the commit library says. *)
Theorem applyIntf_absent (name : string) (cand run : NodePtr) (ch : bool) :
  (findCommitRoot name cand = None <-> name ∉ listConfigInterfaces cand) /\
  (name ∉ listConfigInterfaces cand -> name ∉ listConfigInterfaces run ->
   applyIntf name cand run ch = false) /\
  (name ∈ listConfigInterfaces cand \/ name ∈ listConfigInterfaces run ->
   applyIntf name cand run ch = ch).
Proof.
  split; [apply findCommitRoot_None|]. unfold applyIntf. split.
  - intros Hc Hr. apply findCommitRoot_None in Hc, Hr.
    rewrite Hc, Hr. reflexivity.
  - intros H.
    destruct (findCommitRoot name cand) eqn:Hc; [reflexivity|].
    destruct (findCommitRoot name run) eqn:Hr; [reflexivity|].
    apply findCommitRoot_None in Hc, Hr. tauto.
Qed.

Lemma findCommitRoot_shape_witness :
  exists t intfTree ty intf,
    deref Examples.tree_A = Some t /\
    Child "interfaces" t = Some intfTree /\
    ty ∈ Children intfTree /\ intf ∈ Children ty /\ Name intf = "dp0".
Proof.
  destruct (findCommitRoot_shape "dp0" Examples.tree_A _ eq_refl)
    as (t & intfTree & ty & intf & H1 & H2 & H3 & H4 & H5 & _).
  exists t, intfTree, ty, intf. auto.
Defined.

Lemma applyIntf_absent_witness :
  applyIntf "dp1" Examples.tree_A Examples.tree_B true = false /\
  applyIntf "dp0" Examples.tree_A nil false = false.
Proof.
  destruct (applyIntf_absent "dp1" Examples.tree_A Examples.tree_B true)
    as (_ & H1 & _).
  destruct (applyIntf_absent "dp0" Examples.tree_A nil false)
    as (_ & _ & H2).
  split.
  - apply H1; intros Hin;
      (apply elem_of_cons in Hin as [Hin|Hin]; [discriminate|]);
      apply elem_of_nil in Hin; exact Hin.
  - apply H2. left. apply list_elem_of_here.
Defined.

End CommitRootFacts.

(** ** The running configuration of an interface *)
Section RunningFacts.

Import Machine Manager Dispatcher DispatcherExt.

Context `{codec : Codec}.






End RunningFacts.

Section RunningWitnesses.

Import Machine Manager Dispatcher DispatcherExt.



End RunningWitnesses.

(** ** More on the interface manager *)
Section ManagerExtFacts.

Import Machine Manager ManagerExt.

Lemma send_ifname (msg : message) (w : World) :
  ifname (mach (send msg w).2) = ifname (mach w).
Proof.
  destruct w as [[n s c r p k dn] gs em], msg as [t d].
  destruct dn; [reflexivity|].
  destruct s, t, k, p; try reflexivity;
    cbv -[ptr_eqb]; destruct (ptr_eqb r c); reflexivity.
Qed.

Lemma send_live (msg : message) (w : World) :
  typ msg <> Kill -> typ msg <> Done -> live w -> live (send msg w).2.
Proof.
  destruct w as [[n s c r p k dn] gs em], msg as [t d].
  unfold live; cbn. intros Hk Hd (-> & -> & Hs1 & Hs2).
  destruct s, t, p; try congruence; cbv; repeat split; congruence.
Qed.

Lemma send_stages (msg : message) (w : World) :
  MachineExt.staging msg -> live w ->
  candidate (mach (send msg w).2) = mdata msg.
Proof.
  destruct w as [[n s c r p k dn] gs em], msg as [t d].
  unfold live; cbn. intros Hm (-> & -> & Hs1 & Hs2).
  destruct Hm as [Ht | Ht]; cbn in Ht; subst t;
    destruct s; try congruence; reflexivity.
Qed.

Lemma replay_cons (d : Delivery) (ds : list Delivery) (w : World) :
  replay (d :: ds) w = replay ds (send d.2 w).2.
Proof. reflexivity. Qed.

Lemma replay_ifname (ds : list Delivery) (w : World) :
  ifname (mach (replay ds w)) = ifname (mach w).
Proof.
  revert w. induction ds as [|d ds IH]; intros w; [reflexivity|].
  rewrite replay_cons, IH. apply send_ifname.
Qed.

Lemma replay_live (ds : list Delivery) (w : World) :
  Forall (fun d : Delivery => typ d.2 <> Kill /\ typ d.2 <> Done) ds ->
  live w -> live (replay ds w).
Proof.
  intros Hds. revert w.
  induction Hds as [|d ds [Hk Hd] _ IH]; intros w Hw; [exact Hw|].
  rewrite replay_cons. apply IH. apply send_live; assumption.
Qed.

Lemma replay_stages (ds : list Delivery) (cfg : NodePtr) (w : World) :
  ds <> [] ->
  Forall (fun d : Delivery =>
            MachineExt.staging d.2 /\ mdata d.2 = cfg) ds ->
  live w -> candidate (mach (replay ds w)) = cfg.
Proof.
  intros Hne Hds. revert w.
  induction Hds as [|d ds [Hst Hd] Hds IH]; intros w Hw; [congruence|].
  rewrite replay_cons. destruct ds as [|d' ds'].
  - cbn [replay foldl]. rewrite send_stages by assumption. exact Hd.
  - apply IH; [discriminate|]. apply send_live; [| |exact Hw];
      destruct Hst as [E|E]; rewrite E; discriminate.
Qed.

Lemma listed_occurrences (name : string) (l : list string) :
  name ∈ l -> filter (fun n => n = name) l <> [].
Proof.
  intros Hin E. apply (filter_nil_not_elem_of _ _ name) in E; auto.
Qed.

Lemma Apply_sent (cfg : NodePtr) (mgr : IntfManager) :
  let mgr' := (Manager.Apply cfg mgr).1 in
  let sent := (Manager.Apply cfg mgr).2 in
  config mgr' = cfg /\
  consistent (interfaces mgr) (interfaces mgr') sent /\
  forall name, is_Some (interfaces mgr !! name) ->
    addressed name sent =
    replicate (occurrences name cfg) (name, mkMessage Machine.Apply cfg) ++
    if decide (name ∈ listConfigInterfaces cfg) then []
    else [(name, mkMessage Machine.Reset cfg)].
Proof.
  unfold Manager.Apply.
  destruct (foldl (apply_loop cfg) _ _) as [[ifs1 seen1] sent1] eqn:H1.
  destruct (foldl (reset_loop cfg seen1) _ _) as [ifs2 sent2] eqn:H2.
  cbn [fst snd].
  apply apply_loop_spec with (ifs0 := interfaces mgr) in H1;
    [|apply consistent_refl].
  destruct H1 as (Hc1 & Hseen & Hsent1).
  apply reset_loop_spec with (ifs0 := interfaces mgr) in H2;
    [|apply NoDup_fst_map_to_list|exact Hc1].
  destruct H2 as (Hc2 & Hsent2).
  split; [reflexivity|]. split; [exact Hc2|].
  intros name Hm. rewrite Hsent2, Hsent1. cbn [addressed filter app].
  change (filter _ []) with (@nil Delivery). cbn [app].
  rewrite decide_True by exact Hm. f_equal.
  destruct (decide (name ∈ listConfigInterfaces cfg)) as [Hin|Hn].
  - apply decide_False. intros [_ Hns]. apply Hns, Hseen. auto.
  - apply decide_True. split.
    + apply map_to_list_keys, (consistent_managed _ _ _ name Hc1), Hm.
    + intros Hs. apply Hseen in Hs as [Hs|[Hs _]]; [|contradiction].
      apply elem_of_empty in Hs. exact Hs.
Qed.

(** X14.  Once a tree has been applied, every machine the manager holds has the
    full tree as its candidate, whether its interface is in the tree
    ([Apply]) or not ([Reset]). *)
Theorem Apply_stages (cfg : NodePtr) (mgr : IntfManager) :
  well_managed mgr ->
  forall name w',
    interfaces (Manager.Apply cfg mgr).1 !! name = Some w' ->
    candidate (mach w') = cfg.
Proof.
  intros Hwm name w' Hw'.
  destruct (Apply_sent cfg mgr) as (_ & Hc & Hsent).
  rewrite (Hc name) in Hw'.
  destruct (interfaces mgr !! name) as [w|] eqn:Hw; [|discriminate].
  cbn in Hw'. injection Hw' as <-.
  rewrite (Hsent name) by eauto.
  destruct (Hwm name w Hw) as [_ Hlive].
  apply replay_stages; [| |exact Hlive].
  - unfold occurrences.
    destruct (decide (name ∈ listConfigInterfaces cfg)) as [Hin|_].
    + apply listed_occurrences in Hin.
      destruct (filter _ (listConfigInterfaces cfg)); [congruence|].
      discriminate.
    + destruct (replicate _ _); discriminate.
  - apply Forall_app. split.
    + apply Forall_replicate. cbn. split; [left|]; reflexivity.
    + destruct (decide _); [constructor|].
      apply List.Forall_cons; [split; [right|]; reflexivity | constructor].
Qed.

Lemma empty_well_managed : well_managed NewIntfManager.
Proof. intros n w Hw. cbn in Hw. rewrite lookup_empty in Hw. discriminate. Qed.

Lemma deliver_well_managed (mgr : IntfManager) (name : string)
    (msg : message) :
  well_managed mgr -> typ msg <> Kill -> typ msg <> Done ->
  well_managed (mkManager (config mgr) (deliver name msg (interfaces mgr))).
Proof.
  intros Hwm Hk Hd n w Hw. cbn in Hw. unfold deliver in Hw.
  destruct (decide (name = n)) as [->|E].
  - rewrite lookup_alter_eq in Hw.
    destruct (interfaces mgr !! n) as [w0|] eqn:Hw0; [|discriminate].
    cbn in Hw. injection Hw as <-. destruct (Hwm n w0 Hw0) as [Hn Hl].
    split; [rewrite send_ifname; exact Hn | apply send_live; assumption].
  - rewrite lookup_alter_ne in Hw by exact E. apply (Hwm n w Hw).
Qed.

Lemma Register_well_managed (mgr : IntfManager) (name : string)
    (present : bool) :
  well_managed mgr -> well_managed (Register present name mgr).1.
Proof.
  intros Hwm. unfold Register.
  destruct (interfaces mgr !! name) as [w0|] eqn:Hw0; [exact Hwm|].
  assert (forall ds,
            Forall (fun d : Delivery =>
                      typ d.2 <> Kill /\ typ d.2 <> Done) ds ->
            well_managed
              (mkManager (config mgr)
                 (<[name := replay ds (NewIntfMachine name)]>
                    (interfaces mgr)))) as Hnew.
  { intros ds Hds n w Hw. cbn in Hw.
    destruct (decide (name = n)) as [->|E].
    - rewrite lookup_insert_eq in Hw. injection Hw as <-.
      split; [apply replay_ifname|].
      apply replay_live; [exact Hds|]. cbv. repeat split; discriminate.
    - rewrite lookup_insert_ne in Hw by exact E. apply (Hwm n w Hw). }
  destruct present; cbn [fst]; unfold deliver; rewrite !alter_insert_eq.
  - apply (Hnew [(name, mkMessage Machine.Apply (config mgr));
                 (name, mkMessage Machine.Plug nil)]).
    repeat constructor; discriminate.
  - apply (Hnew [(name, mkMessage Machine.Apply (config mgr))]).
    repeat constructor; discriminate.
Qed.

Lemma Apply_well_managed (mgr : IntfManager) (cfg : NodePtr) :
  well_managed mgr -> well_managed (Manager.Apply cfg mgr).1.
Proof.
  intros Hwm n w' Hw'.
  destruct (Apply_sent cfg mgr) as (_ & Hc & Hsent).
  rewrite (Hc n) in Hw'.
  destruct (interfaces mgr !! n) as [w|] eqn:Hw; [|discriminate].
  cbn in Hw'. injection Hw' as <-. destruct (Hwm n w Hw) as [Hn Hl].
  split; [rewrite replay_ifname; exact Hn|].
  apply replay_live; [|exact Hl].
  rewrite (Hsent n) by eauto. apply Forall_app. split.
  - apply Forall_replicate. cbn. split; discriminate.
  - destruct (decide _); repeat constructor; discriminate.
Qed.

(** X15.  The manager keeps its machines in order: the empty manager is well
    managed, and so is the manager after [Register], [Unregister], [Apply],
    [Plug] or [Unplug] on a well-managed one (each machine is stored under
    its own interface name, and none has been told to stop). *)
Theorem manager_keeps (mgr : IntfManager) (name : string) (present : bool)
    (cfg : NodePtr) :
  well_managed NewIntfManager /\
  (well_managed mgr ->
   well_managed (Register present name mgr).1 /\
   well_managed (Unregister name mgr).1.1 /\
   well_managed (Manager.Apply cfg mgr).1 /\
   well_managed (Manager.Plug name mgr).1 /\
   well_managed (Manager.Unplug name mgr).1).
Proof.
  split; [apply empty_well_managed|]. intros Hwm.
  split; [apply Register_well_managed, Hwm|].
  split; [|split; [apply Apply_well_managed, Hwm|split]].
  - unfold Unregister.
    destruct (interfaces mgr !! name) as [w0|] eqn:Hw0; [|exact Hwm].
    intros n w Hw. cbn in Hw.
    destruct (decide (name = n)) as [->|E].
    + rewrite lookup_delete_eq in Hw. discriminate.
    + rewrite lookup_delete_ne in Hw by exact E. apply (Hwm n w Hw).
  - unfold Manager.Plug.
    destruct (interfaces mgr !! name); [|exact Hwm].
    apply deliver_well_managed; [exact Hwm|discriminate..].
  - unfold Manager.Unplug.
    destruct (interfaces mgr !! name); [|exact Hwm].
    apply deliver_well_managed; [exact Hwm|discriminate..].
Qed.

Lemma mgr_two_well_managed : well_managed Examples.mgr_two.
Proof.
  apply Register_well_managed, Register_well_managed, empty_well_managed.
Qed.

Lemma manager_keeps_witness :
  well_managed (Manager.Apply Examples.tree_A Examples.mgr_two).1 /\
  well_managed (Unregister "dp0" Examples.mgr_two).1.1.
Proof.
  destruct (manager_keeps Examples.mgr_two "dp0" false Examples.tree_A)
    as [_ H].
  destruct (H mgr_two_well_managed) as (_ & H2 & H3 & _).
  split; assumption.
Defined.

(** X16.  [Unregister] stops managing the name and nothing else: the name is gone
    from the map, every other machine and the stored tree are untouched, the
    machine that was there is handed [Kill] once, and a name that is not
    managed makes it a no-op.  Registering a new name and unregistering it
    gives the manager back as it was. *)
Theorem Unregister_forgets (name : string) (mgr : IntfManager) :
  let res := Unregister name mgr in
  interfaces res.1.1 !! name = None /\
  (forall n, n <> name -> interfaces res.1.1 !! n = interfaces mgr !! n) /\
  config res.1.1 = config mgr /\
  res.1.2 = (fun w => (send (mkMessage Kill nil) w).2)
              <$> interfaces mgr !! name /\
  res.2 = match interfaces mgr !! name with
          | Some _ => [(name, mkMessage Kill nil)]
          | None => []
          end /\
  (interfaces mgr !! name = None ->
   res = (mgr, None, []) /\
   forall present,
     (Unregister name (Register present name mgr).1).1.1 = mgr).
Proof.
  cbv zeta. destruct (interfaces mgr !! name) as [w|] eqn:Hw.
  - assert (Unregister name mgr =
            (mkManager (config mgr) (delete name (interfaces mgr)),
             Some (send (mkMessage Kill nil) w).2,
             [(name, mkMessage Kill nil)])) as ->.
    { unfold Unregister. rewrite Hw. reflexivity. }
    cbn. split; [apply lookup_delete_eq|].
    split; [intros n Hn; apply lookup_delete_ne; congruence|].
    split; [reflexivity|]. split; [reflexivity|]. split; [reflexivity|].
    discriminate.
  - assert (Unregister name mgr = (mgr, None, [])) as ->.
    { unfold Unregister. rewrite Hw. reflexivity. }
    cbn. split; [exact Hw|]. split; [reflexivity|]. split; [reflexivity|].
    split; [reflexivity|]. split; [reflexivity|]. intros _.
    split; [reflexivity|].
    intros present. unfold Register, Unregister. rewrite Hw.
    destruct mgr as [cfg ifs]. cbn in *.
    destruct present; cbn; unfold deliver; rewrite !alter_insert_eq,
      lookup_insert_eq; cbn; rewrite delete_insert_id by exact Hw;
      reflexivity.
Qed.

Lemma Apply_stages_witness :
  exists w',
    interfaces (Manager.Apply Examples.tree_A Examples.mgr_two).1 !! "dp1"
    = Some w' /\
    candidate (mach w') = Examples.tree_A.
Proof.
  destruct (interfaces (Manager.Apply Examples.tree_A Examples.mgr_two).1
              !! "dp1") as [w'|] eqn:H; [|vm_compute in H; discriminate].
  exists w'. split; [reflexivity|].
  apply (Apply_stages Examples.tree_A Examples.mgr_two mgr_two_well_managed
           "dp1" w' H).
Defined.

Lemma Unregister_forgets_witness :
  Unregister "dp9" Examples.mgr_two = (Examples.mgr_two, None, []) /\
  (Unregister "dp9" (Register true "dp9" Examples.mgr_two).1).1.1 =
  Examples.mgr_two.
Proof.
  destruct (Unregister_forgets "dp9" Examples.mgr_two)
    as (_ & _ & _ & _ & _ & H).
  destruct (H eq_refl) as [H1 H2]. split; [exact H1 | apply H2].
Defined.

End ManagerExtFacts.

(** ** More on the session registry and the dispatcher *)
Section SessionsExtFacts.

(** X17.  [Delete] removes the identifier and nothing else, and does nothing when
    the identifier is not registered; a session just registered is what
    [Get] returns; registering under a free identifier and deleting it gives
    the registry back. *)
Theorem Sessions_Delete_Get (sid : string) (c r : option Node)
    (sch : Sessions.SchemaNode) (s : gmap string Sessions.Session) :
  Sessions.Get sid (Sessions.Delete sid s) = None /\
  (forall sid', sid' <> sid ->
     Sessions.Get sid' (Sessions.Delete sid s) = Sessions.Get sid' s) /\
  (s !! sid = None ->
   Sessions.Delete sid s = s /\
   Sessions.Get sid (Sessions.New sid c r sch s).2 =
     Some (Sessions.mkSession c r sch) /\
   Sessions.Delete sid (Sessions.New sid c r sch s).2 = s) /\
  (forall old, s !! sid = Some old ->
     Sessions.Get sid (Sessions.New sid c r sch s).2 = Some old).
Proof.
  unfold Sessions.Get, Sessions.Delete, Sessions.New.
  destruct (s !! sid) as [old|] eqn:Hs; cbn.
  - split; [apply lookup_delete_eq|].
    split; [intros sid' Hn; apply lookup_delete_ne; congruence|].
    split; [discriminate|]. intros old' [= <-]. exact Hs.
  - split; [exact Hs|]. split; [reflexivity|]. split; [|discriminate].
    intros _. split; [reflexivity|].
    rewrite lookup_insert_eq. split; [reflexivity|].
    apply delete_insert_id, Hs.
Qed.

Lemma Sessions_Delete_Get_witness :
  Sessions.Delete "s2" Examples.one_session = Examples.one_session /\
  Sessions.Delete "s2"
    (Sessions.New "s2" None None 1 Examples.one_session).2 =
  Examples.one_session.
Proof.
  destruct (Sessions_Delete_Get "s2" None None 1 Examples.one_session)
    as (_ & _ & H & _).
  destruct (H eq_refl) as (H1 & _ & H3). split; assumption.
Defined.

End SessionsExtFacts.

Section DispatcherExtFacts.

Import Machine Manager Dispatcher DispatcherExt.

Context `{codec : Codec} `{lib : TreeLib}.

(** X18.  [NodeGetStatus] on an identifier that is not registered panics (the nil
    session is dereferenced); on a registered session and a path that is not
    in the comparison it fails with a data-missing error that says "Node
    does not exist". *)
Theorem NodeGetStatus_missing (db : DB) (sid path : string) (c : Core) :
  (Sessions.Get sid (sessionmgr c) = None ->
   NodeGetStatus db sid path c = Panic) /\
  (forall session,
     Sessions.Get sid (sessionmgr c) = Some session ->
     diffDescendant None
       (diff_NewNode (Sessions.candidate session) (Sessions.running session)
                     (SchemaTree c))
       (Makepath path) = None ->
     NodeGetStatus db sid path c =
     Failure (mkError DataMissing "Node does not exist" [] "")).
Proof.
  unfold NodeGetStatus. split.
  - intros ->. reflexivity.
  - intros session -> ->. reflexivity.
Qed.

(** X19.  [TreeGet] panics on an identifier that is not registered.  On a
    registered session it never panics: a path that is not in the tree gives
    an unknown-element error that names the last element of the path and
    carries the path before it, and a path that is in the tree gives what
    the marshaller makes of that subtree, with [HideSecrets] among the
    options unless the flag "Secrets" is true and [IncludeDefaults] only when
    the flag "Defaults" is true. *)
Theorem TreeGet_outcomes (db : DB) (sid path encoding : string)
    (flags : gmap string bool) (c : Core) :
  (Sessions.Get sid (sessionmgr c) = None ->
   TreeGet db sid path encoding flags c = Panic) /\
  (forall tree, getTree db sid c = Some tree ->
     TreeGet db sid path encoding flags c <> Panic /\
     (union_Descendant tree (Makepath path) = None ->
      exists l, last (Makepath path) = Some l /\
        TreeGet db sid path encoding flags c =
        Failure (mkError UnknownElement "" (removelast (Makepath path)) l)) /\
     (forall ut, union_Descendant tree (Makepath path) = Some ut ->
        TreeGet db sid path encoding flags c =
        match Marshal ut "data" encoding (marshal_options flags) with
        | inl out => Return out
        | inr e => Failure e
        end) /\
     (HideSecrets ∈ marshal_options flags <-> flags !! "Secrets" <> Some true)
     /\
     (IncludeDefaults ∈ marshal_options flags <->
      flags !! "Defaults" = Some true)).
Proof.
  unfold TreeGet. split.
  - intros Hn. unfold getTree. rewrite Hn. reflexivity.
  - intros tree ->.
    assert (union_Descendant tree (Makepath path) = None ->
            exists l, last (Makepath path) = Some l) as Hlast.
    { destruct (Makepath path) as [|p ps] eqn:Hp; [discriminate|].
      intros _. destruct (last (p :: ps)) eqn:Hl; [eauto|].
      apply last_None in Hl. discriminate. }
    split; [|split; [|split; [|split]]].
    + destruct (union_Descendant tree (Makepath path)) as [ut|] eqn:Hd.
      * destruct (Marshal _ _ _ _); discriminate.
      * destruct (Hlast eq_refl) as [l ->]. discriminate.
    + intros Hd. destruct (Hlast Hd) as [l Hl]. exists l.
      rewrite Hd, Hl. split; reflexivity.
    + intros ut ->. unfold marshal_options.
      destruct (flags !! "Defaults") as [[|]|];
        destruct (flags !! "Secrets") as [[|]|]; cbn;
        rewrite ?app_nil_r; reflexivity.
    + unfold marshal_options.
      destruct (flags !! "Defaults") as [[|]|];
        destruct (flags !! "Secrets") as [[|]|]; cbn;
        (split; intros H;
         first [ congruence
               | by repeat constructor
               | exfalso;
                 repeat (apply elem_of_cons in H as [H|H]; [discriminate|]);
                 apply elem_of_nil in H; exact H ]).
    + unfold marshal_options.
      destruct (flags !! "Defaults") as [[|]|];
        destruct (flags !! "Secrets") as [[|]|]; cbn;
        (split; intros H;
         first [ congruence
               | by repeat constructor
               | exfalso;
                 repeat (apply elem_of_cons in H as [H|H]; [discriminate|]);
                 apply elem_of_nil in H; exact H ]).
Qed.

Lemma validate_from_spec (sn : Sessions.SchemaNode) (walked ps : list string) :
  (validate_from sn walked ps = None <-> is_Some (schema_walk sn ps)) /\
  (forall e, validate_from sn walked ps = Some e ->
     exists pre v post sn',
       ps = pre ++ v :: post /\ schema_walk sn pre = Some sn' /\
       SchemaChild sn' v = None /\
       e = mkError UnknownElement "" (walked ++ pre) v).
Proof.
  revert sn walked. induction ps as [|v ps IH]; intros sn walked; cbn.
  - split; [split; eauto|]. discriminate.
  - destruct (SchemaChild sn v) as [sn'|] eqn:Hc.
    + destruct (IH sn' (walked ++ [v])) as [IH1 IH2]. split; [exact IH1|].
      intros e He. apply IH2 in He as (pre & v' & post & sn2 & -> & Hw & Hn & ->).
      exists (v :: pre), v', post, sn2. cbn. rewrite Hc.
      rewrite <- app_assoc. auto.
    + split; [split; [discriminate | intros [x Hx]; discriminate]|].
      intros e [= <-]. exists [], v, ps, sn. rewrite app_nil_r. auto.
Qed.

(** X20.  [validatePath] accepts exactly the paths that can be followed down the
    schema from its root; otherwise its error names the first element that
    has no schema node and carries the path walked before it. *)
Theorem validatePath_spec (ps : list string) (c : Core) :
  (validatePath ps c = None <-> is_Some (schema_walk (SchemaTree c) ps)) /\
  (forall e, validatePath ps c = Some e ->
     exists pre v post sn,
       ps = pre ++ v :: post /\ schema_walk (SchemaTree c) pre = Some sn /\
       SchemaChild sn v = None /\
       e = mkError UnknownElement "" pre v).
Proof.
  unfold validatePath.
  destruct (validate_from_spec (SchemaTree c) [] ps) as [Hok Herr].
  split; [exact Hok|].
  intros e He. destruct (Herr e He) as (pre & v & post & sn & H).
  exists pre, v, post, sn. exact H.
Qed.

(** X21.  [Exists] checks the path against the schema first: a path the schema does
    not know fails with that error even for an identifier that is not
    registered; a valid path panics on an unregistered identifier; otherwise
    it returns a boolean, a path absent from the tree being answered false
    and never an error. *)
Theorem Exists_outcomes (db : DB) (sid path : string) (c : Core) :
  (forall e, validatePath (Makepath path) c = Some e ->
     Exists db sid path c = Failure e) /\
  (validatePath (Makepath path) c = None ->
   (Sessions.Get sid (sessionmgr c) = None -> Exists db sid path c = Panic) /\
   (forall ut, getTree db sid c = Some ut ->
      Exists db sid path c =
      Return (bool_decide (union_Exists ut (Makepath path) = None)))).
Proof.
  unfold Exists. split.
  - intros e ->. reflexivity.
  - intros ->. split.
    + intros Hn. unfold getTree. rewrite Hn. reflexivity.
    + intros ut ->. destruct (union_Exists ut (Makepath path)); reflexivity.
Qed.

End DispatcherExtFacts.

Section DispatcherExtWitnesses.

Import Machine Manager Dispatcher DispatcherExt.

Lemma NodeGetStatus_missing_witness :
  @NodeGetStatus Examples.codec RUNNING "nobody" "/" Examples.core_dp0 =
  Panic /\
  @NodeGetStatus Examples.codec RUNNING "s1" "/interfaces/tunnel"
                 Examples.core_dp0 =
  Failure (mkError DataMissing "Node does not exist" [] "").
Proof.
  destruct (@NodeGetStatus_missing Examples.codec RUNNING "nobody" "/"
              Examples.core_dp0) as [H1 _].
  destruct (@NodeGetStatus_missing Examples.codec RUNNING "s1"
              "/interfaces/tunnel" Examples.core_dp0) as [_ H2].
  split; [apply H1; reflexivity | eapply H2; reflexivity].
Defined.

Lemma TreeGet_outcomes_witness :
  @TreeGet Examples.codec RUNNING "s1" "/interfaces/tunnel/tun0" "json" ∅
           Examples.core_dp0 =
  Failure (mkError UnknownElement "" ["interfaces"; "tunnel"] "tun0").
Proof.
  destruct (@TreeGet_outcomes Examples.codec RUNNING "s1"
              "/interfaces/tunnel/tun0" "json" ∅ Examples.core_dp0)
    as [_ H].
  destruct (H _ eq_refl) as (_ & H2 & _).
  destruct (H2 eq_refl) as (l & Hl & ->). injection Hl as <-. reflexivity.
Defined.

Lemma validatePath_spec_witness :
  @validatePath MoreExamples.lib ["interfaces"; "dataplane"]
                Examples.core_dp0 = None.
Proof.
  apply (@validatePath_spec MoreExamples.lib ["interfaces"; "dataplane"]
           Examples.core_dp0).
  vm_compute. eauto.
Defined.

Lemma Exists_outcomes_witness :
  @Exists MoreExamples.lib RUNNING "nobody" "/interfaces/tunnel"
          Examples.core_dp0 =
  Failure (mkError UnknownElement "" ["interfaces"] "tunnel").
Proof.
  destruct (@Exists_outcomes MoreExamples.lib RUNNING "nobody"
              "/interfaces/tunnel" Examples.core_dp0) as [H _].
  apply H. reflexivity.
Defined.

End DispatcherExtWitnesses.

(** ** Serving a connection *)
Section ConnFacts.

Import Conn.

Context `{R : Reflect} {S : Type}.

Lemma check_args_exact (method : string) (args : list Value)
    (types : list GoType) :
  Forall2 (fun v t => TypeOf v = Some t) args types ->
  check_args method args types = ArgsOk args.
Proof.
  induction 1 as [|v t args types Hv _ IH]; [reflexivity|].
  cbn. rewrite Hv, decide_True by reflexivity. rewrite IH. reflexivity.
Qed.

(** X23.  What a request gets for an answer.  An unknown method is answered
    "unknown method <name>" and a wrong number of arguments "too many" or
    "too few arguments in call to <name> expected <n> got <k>", in both cases
    with no result, the request's id, and the state of the daemon untouched.
    With the right number of arguments a JSON null in first place makes the
    handler panic.  When every argument has exactly the type of its
    parameter the method runs on the arguments as they are; its error, if
    any, is answered in place of its result. *)
Theorem respond_outcomes (m : gmap string (Method S)) (req : Request)
    (st : S) :
  let method := Req_Method req in
  let args := Req_Args req in
  (m !! method = None ->
   respond m req st =
   (Some (mkResponse None (Some ("unknown method " +:+ method))
                     (Req_Id req)), st)) /\
  (forall meth, m !! method = Some meth ->
     (length args <> length (params meth) ->
      respond m req st =
      (Some (mkResponse None
               (Some (if bool_decide (length (params meth) < length args)
                      then "too many arguments in call to " +:+ method +:+
                           " expected " +:+ pretty (length (params meth)) +:+
                           " got " +:+ pretty (length args)
                      else "too few arguments in call to " +:+ method +:+
                           " expected " +:+ pretty (length (params meth)) +:+
                           " got " +:+ pretty (length args)))
               (Req_Id req)), st)) /\
     (length args = length (params meth) ->
      (exists v rest, args = v :: rest /\ TypeOf v = None) ->
      respond m req st = (None, st)) /\
     (Forall2 (fun v t => TypeOf v = Some t) args (params meth) ->
      respond m req st =
      (Some (match (body meth args st).1.2 with
             | Some text => mkResponse None (Some text) (Req_Id req)
             | None => mkResponse (Some (body meth args st).1.1) None
                                  (Req_Id req)
             end), (body meth args st).2))).
Proof.
  destruct req as [method args id]. cbn. unfold respond, Call. cbn.
  split.
  - intros ->. reflexivity.
  - intros meth ->. split; [|split].
    + intros Hn. rewrite decide_True by exact Hn. cbn.
      destruct (bool_decide _); reflexivity.
    + intros Hl (v & rest & -> & Hv). rewrite decide_False by tauto.
      destruct (params meth) as [|t ts]; [discriminate|].
      cbn. rewrite Hv. reflexivity.
    + intros Hf. pose proof (Forall2_length _ _ _ Hf) as Hl.
      rewrite decide_False by tauto.
      rewrite (check_args_exact method args _ Hf).
      destruct (body meth args st) as [[r [text|]] st']; reflexivity.
Qed.

Lemma secrets_fold (groups : list string) (b : bool) :
  foldl (fun secrets gr =>
           if bool_decide (gr = "secrets") then true else secrets)
        b groups = true <->
  b = true \/ "secrets" ∈ groups.
Proof.
  revert b. induction groups as [|g groups IH]; intros b; cbn.
  - rewrite elem_of_nil. tauto.
  - rewrite IH, elem_of_cons. destruct (bool_decide_reflect (g = "secrets")).
    + subst. tauto.
    + split; [tauto|]. intros [?|[?|?]]; auto; congruence.
Qed.

(** X24.  The secrets flag of a connection.  Whenever [getLoginUid] returns an
    error the uid it returns is 0: the error of the audit library when the
    login uid cannot be read, a login-pid error for the process when the
    login uid is the "not set" value.  Without an error it returns the login
    uid read, which is not the "not set" value.  [getCreds] fails only on the
    socket's file or peer credentials, never with a login-pid error;
    otherwise its credentials are the peer's with the uid replaced by the
    one [getLoginUid] returns, so 0 for a peer whose login uid is not set or
    cannot be read.  The flag is set exactly when the socket's file and peer
    credentials can be had, the groups of that uid can be looked up, and one
    of them is called "secrets". *)
Theorem secrets_flag (sys : System) :
  (forall pid,
     (forall e, (getLoginUid sys pid).2 = Some e ->
        (getLoginUid sys pid).1 = 0%N /\
        ((exists text, GetPidLoginuid sys pid = inr text /\
                       e = SysError text) \/
         (GetPidLoginuid sys pid = inl unset_uid /\ e = LoginPidError pid))) /\
     ((getLoginUid sys pid).2 = None ->
        GetPidLoginuid sys pid = inl (getLoginUid sys pid).1 /\
        (getLoginUid sys pid).1 <> unset_uid) /\
     (getLoginUid sys pid).1 = login_or_zero sys pid /\
     ((getLoginUid sys pid).2 = None ->
      GetPidLoginuid sys pid = inl (login_or_zero sys pid) /\
      login_or_zero sys pid <> unset_uid)) /\
  (forall e, getCreds sys = inr e ->
     IsLoginPidError e = false /\
     (conn_File sys = Some (ConnError_text e) \/
      conn_File sys = None /\ GetsockoptUcred sys = inr (ConnError_text e))) /\
  (forall cred, getCreds sys = inl cred ->
     exists peer,
       conn_File sys = None /\ GetsockoptUcred sys = inl peer /\
       cred = mkUcred (Pid peer) (getLoginUid sys (Pid peer)).1 (Gid peer) /\
       ((getLoginUid sys (Pid peer)).2 <> None -> Uid cred = 0%N)) /\
  (handle_secrets sys = true <->
   conn_File sys = None /\
   exists cred groups,
     GetsockoptUcred sys = inl cred /\
     LookupUid sys (pretty (login_or_zero sys (Pid cred))) = inl groups /\
     "secrets" ∈ groups).
Proof.
  assert (Huid : forall pid,
            (getLoginUid sys pid).1 = login_or_zero sys pid).
  { intros pid. unfold getLoginUid, login_or_zero.
    destruct (GetPidLoginuid sys pid) as [u|e]; [|reflexivity].
    destruct (bool_decide _); reflexivity. }
  assert (Herr : forall pid e, (getLoginUid sys pid).2 = Some e ->
            (getLoginUid sys pid).1 = 0%N /\
            ((exists text, GetPidLoginuid sys pid = inr text /\
                           e = SysError text) \/
             (GetPidLoginuid sys pid = inl unset_uid /\
              e = LoginPidError pid))).
  { intros pid e. unfold getLoginUid.
    destruct (GetPidLoginuid sys pid) as [u|text]; cbn.
    - destruct (bool_decide_reflect (u = unset_uid)) as [->|Hu]; cbn.
      + intros [= <-]. split; [reflexivity|]. right. split; reflexivity.
      + discriminate.
    - intros [= <-]. split; [reflexivity|]. left. eauto. }
  assert (Hok : forall pid, (getLoginUid sys pid).2 = None ->
            GetPidLoginuid sys pid = inl (getLoginUid sys pid).1 /\
            (getLoginUid sys pid).1 <> unset_uid).
  { intros pid. unfold getLoginUid.
    destruct (GetPidLoginuid sys pid) as [u|text]; cbn; [|discriminate].
    destruct (bool_decide_reflect (u = unset_uid)) as [->|Hu]; cbn.
    - discriminate.
    - intros _. split; [reflexivity | exact Hu]. }
  split; [|split; [|split]].
  - intros pid. split; [apply Herr|]. split; [apply Hok|].
    split; [apply Huid|]. rewrite <- Huid. apply Hok.
  - unfold getCreds. intros e.
    destruct (conn_File sys) as [err|].
    { intros [= <-]. split; [reflexivity|]. left. reflexivity. }
    destruct (GetsockoptUcred sys) as [peer|err]; [discriminate|].
    intros [= <-]. split; [reflexivity|]. right. split; reflexivity.
  - unfold getCreds. intros cred.
    destruct (conn_File sys) as [err|]; [discriminate|].
    destruct (GetsockoptUcred sys) as [peer|err]; [|discriminate].
    intros [= <-]. exists peer. split; [reflexivity|]. split; [reflexivity|].
    split; [reflexivity|]. cbn [Uid]. intros Hne.
    destruct (getLoginUid sys (Pid peer)).2 as [e|] eqn:He; [|congruence].
    apply (Herr _ e He).
  - unfold handle_secrets, getCreds.
    destruct (conn_File sys) as [err|].
    { split; [discriminate | intros [? _]; discriminate]. }
    destruct (GetsockoptUcred sys) as [cred|err].
    2:{ split; [discriminate | intros (_ & c & g & ? & _); discriminate]. }
    cbn [Uid]. rewrite Huid.
    destruct (LookupUid sys _) as [groups|err] eqn:Hl.
    + rewrite secrets_fold. split.
      * intros [?|Hin]; [discriminate|]. split; [reflexivity|].
        exists cred, groups. auto.
      * intros (_ & c & g & [= <-] & Hg & Hin). rewrite Hl in Hg.
        injection Hg as <-. auto.
    + split; [discriminate|].
      intros (_ & c & g & [= <-] & Hg & _). rewrite Hl in Hg. discriminate.
Qed.

End ConnFacts.

Section ConnWitnesses.

Import Conn.

Lemma respond_outcomes_witness :
  @respond MoreExamples.reflect nat MoreExamples.methods
    (@mkRequest MoreExamples.reflect "Plug" [] 7) 0 =
  (Some (@mkResponse MoreExamples.reflect None
           (Some "too few arguments in call to Plug expected 1 got 0") 7), 0)
  /\
  @respond MoreExamples.reflect nat MoreExamples.methods
    (@mkRequest MoreExamples.reflect "Plug" [MoreExamples.JNull] 8) 0 =
  (None, 0).
Proof.
  destruct (@respond_outcomes MoreExamples.reflect nat MoreExamples.methods
              (@mkRequest MoreExamples.reflect "Plug" [] 7) 0) as [_ H].
  destruct (H _ eq_refl) as (H1 & _).
  destruct (@respond_outcomes MoreExamples.reflect nat MoreExamples.methods
              (@mkRequest MoreExamples.reflect "Plug" [MoreExamples.JNull] 8)
              0) as [_ H'].
  destruct (H' _ eq_refl) as (_ & H2 & _).
  split.
  - apply H1. discriminate.
  - apply H2; [reflexivity|]. eexists _, _. split; reflexivity.
Defined.

Lemma secrets_flag_witness :
  getLoginUid MoreExamples.daemon_peer 321 = (0%N, Some (LoginPidError 321)) /\
  handle_secrets MoreExamples.daemon_peer = true.
Proof.
  destruct (secrets_flag MoreExamples.daemon_peer) as (Huid & _ & _ & Hflag).
  destruct (Huid 321%Z) as (Herr & _).
  destruct (Herr (LoginPidError 321) eq_refl) as [Hzero _].
  split.
  - apply injective_projections; [exact Hzero | reflexivity].
  - apply Hflag. split; [reflexivity|].
    exists (mkUcred 321 1000 1000), ["root"; "secrets"].
    split; [reflexivity|]. split; [reflexivity|].
    apply list_elem_of_further, list_elem_of_here.
Defined.

End ConnWitnesses.

Section ForwardFacts.

Import Manager Dispatcher.

(** X22.  The forwarders always answer true.  [Plug], [Unplug] and [Unregister] of
    a name that is not managed change nothing (no machine is created for
    it), and so does [Register] of a name that is managed. *)
Theorem forwarders_silent (present : bool) (name : string) (c : Core) :
  (Forward.Register present name c).1 = Return true /\
  (Forward.Unregister name c).1 = Return true /\
  (Forward.Plug name c).1 = Return true /\
  (Forward.Unplug name c).1 = Return true /\
  (interfaces (intfmgr c) !! name = None ->
   (Forward.Unregister name c).2 = c /\
   (Forward.Plug name c).2 = c /\ (Forward.Unplug name c).2 = c) /\
  (is_Some (interfaces (intfmgr c) !! name) ->
   (Forward.Register present name c).2 = c).
Proof.
  do 4 (split; [reflexivity|]).
  unfold Forward.Register, Forward.Unregister, Forward.Plug, Forward.Unplug,
    Register, Unregister, Plug, Unplug, Forward.with_intfmgr.
  destruct c as [mgr ss st]. cbn. split.
  - intros ->. auto.
  - intros [w ->]. reflexivity.
Qed.

Lemma forwarders_silent_witness :
  (Forward.Plug "dp9" Examples.core_dp0).2 = Examples.core_dp0 /\
  (Forward.Register true "dp0" Examples.core_dp0).2 = Examples.core_dp0.
Proof.
  destruct (forwarders_silent true "dp9" Examples.core_dp0)
    as (_ & _ & _ & _ & H & _).
  destruct (forwarders_silent true "dp0" Examples.core_dp0)
    as (_ & _ & _ & _ & _ & H').
  split; [apply H; reflexivity | apply H'; vm_compute; eauto].
Defined.

End ForwardFacts.

(** ** The control utility *)
Section CtlFacts.

Import Ctl.

(** X25.  [getIntfName] takes the first argument when there is one and the
    variable INTERFACE otherwise; it fails exactly when the name so chosen is
    empty, so an empty argument is an error even when INTERFACE is set, and a
    name it returns is never empty. *)
Theorem getIntfName_spec (env : Env) (args : list string) :
  (forall n, getIntfName env args = inl n ->
     n <> "" /\ n = hd (INTERFACE env) args) /\
  ((exists e, getIntfName env args = inr e) <->
   (args = [] /\ INTERFACE env = "") \/ (exists rest, args = "" :: rest)).
Proof.
  unfold getIntfName. destruct args as [|a rest]; cbn.
  - destruct (bool_decide_reflect (INTERFACE env = "")) as [E|E].
    + split; [discriminate|]. split; eauto.
    + split; [intros n [= <-]; auto|].
      split; [intros [e He]; discriminate|].
      intros [[_ ?]|[r Hr]]; [contradiction | discriminate].
  - destruct (bool_decide_reflect (a = "")) as [E|E].
    + split; [discriminate|]. subst. split; eauto.
    + split; [intros n [= <-]; auto|].
      split; [intros [e He]; discriminate|].
      intros [[? _]|[r Hr]]; [discriminate | congruence].
Qed.

Lemma getIntfName_spec_witness :
  getIntfName (mkEnv "dp0" None (fun _ _ => None) (RunDone None [])) [""]
  = inr "must supply interface name".
Proof.
  destruct (getIntfName_spec
              (mkEnv "dp0" None (fun _ _ => None) (RunDone None [])) [""])
    as [_ [_ H]].
  destruct H as [e He]; [right; eauto|].
  rewrite He. f_equal. vm_compute in He. congruence.
Defined.

Lemma actions_lookup (a : string) (act : action) :
  actions !! a = Some act ->
  (a = "apply" /\ run act = (fun env _ => apply_run env) /\ nargs act = 0) \/
  (a = "register" /\ run act = register /\ nargs act = 1) \/
  (a = "unregister" /\ run act = unregister /\ nargs act = 1) \/
  (a = "plug" /\ run act = plug /\ nargs act = 0) \/
  (a = "unplug" /\ run act = unplug /\ nargs act = 0).
Proof.
  intros H. unfold actions in H. apply elem_of_list_to_map_2 in H.
  repeat (apply elem_of_cons in H as [H|H];
          [injection H as -> ->; cbn; tauto|]).
  apply elem_of_nil in H. contradiction.
Qed.

Lemma actions_register : actions !! "register" =
  Some (mkAction "register" "register a new device to be managed" register 1).
Proof. vm_compute. reflexivity. Qed.

Lemma actions_unregister : actions !! "unregister" =
  Some (mkAction "unregister" "stop managing a device" unregister 1).
Proof. vm_compute. reflexivity. Qed.

Lemma actions_plug : actions !! "plug" =
  Some (mkAction "plug" "send plug event for device" plug 0).
Proof. vm_compute. reflexivity. Qed.

Lemma actions_unplug : actions !! "unplug" =
  Some (mkAction "unplug" "send unplug event for device" unplug 0).
Proof. vm_compute. reflexivity. Qed.

(** X26.  How the utility ends.  It panics only if its [apply] action does: the
    check on the number of arguments keeps [register] and [unregister] from
    indexing an empty list.  When the daemon cannot be dialled it exits 1 and
    nothing is sent.  [register] and [unregister] send one call with their
    first argument, be it empty, and exit 0 exactly when the daemon answers
    no error; without an argument they exit 1 and send nothing.  [plug] and
    [unplug] send one call for the name [getIntfName] gives, and exit 1
    without sending when it gives none. *)
Theorem main_outcomes (args : list string) (env : Env) :
  (main args env = Panicked ->
   exists rest, args = "apply" :: rest /\ apply_run env = RunPanic) /\
  (forall err, dial env = Some err ->
     exists lines, main args env = Exit 1 lines []) /\
  (dial env = None ->
   forall a, a = "register" \/ a = "unregister" ->
     let method := if bool_decide (a = "register")
                   then "Register" else "Unregister" in
     (forall n rest,
        main (a :: n :: rest) env =
        match rpc env method n with
        | Some err => Exit 1 [err] [(method, n)]
        | None => Exit 0 [] [(method, n)]
        end) /\
     main [a] env =
     Exit 1 ["Invalid number of arguments to " +:+ a +:+ " needs 1"] []) /\
  (dial env = None ->
   forall a, a = "plug" \/ a = "unplug" ->
     let method := if bool_decide (a = "plug") then "Plug" else "Unplug" in
     forall rest,
       main (a :: rest) env =
       match getIntfName env rest with
       | inr err => Exit 1 [err] []
       | inl n =>
           match rpc env method n with
           | Some err => Exit 1 [err] [(method, n)]
           | None => Exit 0 [] [(method, n)]
           end
       end).
Proof.
  split; [|split; [|split]].
  - unfold main. destruct args as [|a rest]; [discriminate|].
    destruct (actions !! a) as [act|] eqn:Ha; [|discriminate].
    destruct (bool_decide_reflect (length rest < nargs act)) as [Hl|Hl];
      [discriminate|].
    destruct (dial env); [discriminate|].
    apply actions_lookup in Ha
      as [(-> & Hr & Hn)|[(-> & Hr & Hn)|[(-> & Hr & Hn)|
          [(-> & Hr & Hn)|(-> & Hr & Hn)]]]]; rewrite Hr, ?Hn in *.
    + destruct (apply_run env) as [|[e|] sent] eqn:Hap;
        [eauto | discriminate..].
    + destruct rest as [|n rest]; [cbn in Hl; lia|]. cbn.
      destruct (rpc env "Register" n); discriminate.
    + destruct rest as [|n rest]; [cbn in Hl; lia|]. cbn.
      destruct (rpc env "Unregister" n); discriminate.
    + unfold plug, client_call. destruct (getIntfName env rest) as [n|e];
        [destruct (rpc env "Plug" n)|]; discriminate.
    + unfold unplug, client_call. destruct (getIntfName env rest) as [n|e];
        [destruct (rpc env "Unplug" n)|]; discriminate.
  - intros err Hd. unfold main. destruct args as [|a rest]; [eauto|].
    destruct (actions !! a) as [act|]; [|eauto].
    destruct (bool_decide _); [eauto|]. rewrite Hd. eauto.
  - intros Hd a [-> | ->]; cbn zeta; unfold main;
      rewrite ?actions_register, ?actions_unregister, Hd; cbn;
      (split; [intros n rest; destruct (rpc env _ n); reflexivity
              | reflexivity]).
  - intros Hd a [-> | ->] method rest; subst method; unfold main;
      rewrite ?actions_plug, ?actions_unplug, Hd; cbn;
      unfold plug, unplug, client_call;
      (destruct (getIntfName env rest) as [n|e];
       [destruct (rpc env _ n)|]; reflexivity).
Qed.

Lemma main_outcomes_witness :
  main ["register"; ""] (mkEnv "" None (fun _ _ => None) RunPanic) =
  Exit 0 [] [("Register", "")] /\
  main ["plug"] (mkEnv "" None (fun _ _ => None) RunPanic) =
  Exit 1 ["must supply interface name"] [].
Proof.
  destruct (main_outcomes [] (mkEnv "" None (fun _ _ => None) RunPanic))
    as (_ & _ & H3 & H4).
  split.
  - destruct (H3 eq_refl "register" (or_introl eq_refl)) as [H _].
    apply (H "" []).
  - apply (H4 eq_refl "plug" (or_introl eq_refl) []).
Defined.

Lemma slice_from_app (pre : string) (c : ascii) (post : string) :
  slice_from (Datatypes.S (String.length pre)) (pre +:+ String c post) = post.
Proof.
  induction pre as [|a pre IH]; [reflexivity|]. cbn. exact IH.
Qed.

Lemma lastIndexFrom_spec (c : ascii) (s : string) :
  forall i found,
    (found < i)%Z ->
    let r := lastIndexFrom c s i found in
    (has_byte c s = false /\ r = found) \/
    (exists pre post,
       s = pre +:+ String c post /\ has_byte c post = false /\
       r = (i + Z.of_nat (String.length pre))%Z).
Proof.
  induction s as [|a s IH]; intros i found Hlt; cbn.
  - left. auto.
  - destruct (bool_decide_reflect (a = c)) as [->|Hne]; cbn.
    + destruct (IH (i + 1)%Z i ltac:(lia))
        as [[Hno ->]|(pre & post & -> & Hno & ->)].
      * right. exists "", s. cbn. split; [reflexivity|].
        split; [exact Hno | lia].
      * right. exists (String c pre), post. cbn.
        split; [reflexivity|]. split; [exact Hno | lia].
    + destruct (IH (i + 1)%Z found ltac:(lia))
        as [[Hno ->]|(pre & post & -> & Hno & ->)].
      * left. auto.
      * right. exists (String a pre), post. cbn.
        split; [reflexivity|]. split; [exact Hno | lia].
Qed.

Lemma has_byte_app (c : ascii) (pre post : string) :
  has_byte c (pre +:+ String c post) = true.
Proof.
  induction pre as [|a pre IH].
  - change (has_byte c ("" +:+ String c post))
      with (bool_decide (c = c) || has_byte c post).
    rewrite bool_decide_eq_true_2 by reflexivity. reflexivity.
  - change (has_byte c (String a pre +:+ String c post))
      with (bool_decide (a = c) || has_byte c (pre +:+ String c post)).
    rewrite IH. apply orb_true_r.
Qed.

(** X27.  [GetFuncName] gives the unqualified name: what follows the last dot of
    the caller's name, hence a text without a dot, and the whole name when
    it has no dot; "invalid" when the caller is not known. *)
Theorem GetFuncName_unqualified (caller : option string) :
  (caller = None -> GetFuncName caller = "invalid") /\
  (forall name, caller = Some name ->
     has_byte "."%char (GetFuncName caller) = false /\
     (has_byte "."%char name = false -> GetFuncName caller = name) /\
     (has_byte "."%char name = true ->
      exists pre, name = pre +:+ "." +:+ GetFuncName caller)).
Proof.
  split; [intros ->; reflexivity|].
  intros name ->. unfold GetFuncName, LastIndex_dot.
  destruct (lastIndexFrom_spec "."%char name 0 (-1) ltac:(lia))
    as [[Hno ->]|(pre & post & -> & Hno & ->)].
  - cbn. split; [exact Hno|]. split; [reflexivity|]. congruence.
  - replace (Z.to_nat (0 + Z.of_nat (String.length pre) + 1))
      with (Datatypes.S (String.length pre)) by lia.
    rewrite slice_from_app. split; [exact Hno|].
    split; [rewrite has_byte_app; discriminate|].
    intros _. exists pre. reflexivity.
Qed.

Lemma GetFuncName_unqualified_witness :
  GetFuncName (Some "github.com/danos/ifmgrd.Client.Register") = "Register".
Proof.
  destruct (GetFuncName_unqualified
              (Some "github.com/danos/ifmgrd.Client.Register")) as [_ H].
  destruct (H _ eq_refl) as (_ & _ & H3).
  destruct (H3 eq_refl) as [pre Hpre]. reflexivity.
Defined.

End CtlFacts.
